(** * A shallow embedding of the dual-encoder tagger and its corpus selector

    The development follows [flair/models/dual_encoder.py] and
    [local_corpora.py].  Python exceptions are results of an error monad,
    tensors are lists of rows over an abstract scalar type, and the
    framework objects the model only calls (encoders, the loss function,
    the dataset loaders) are fields of a record that the model takes as
    an argument. *)

From Stdlib Require Import List String Ascii ZArith Lia Bool Arith.
From Stdlib Require DecimalString.
Import ListNotations.
Open Scope string_scope.

(** ** Python values that the code relies on *)

Module Py.

(** The exceptions the modelled code can raise. *)
Inductive exn : Type :=
| AssertionError
| IndexError
| TypeError
| ValueError
| RuntimeError
| Exception (msg : string).

Inductive result (A : Type) : Type :=
| Ok (a : A)
| Raise (e : exn).
Arguments Ok {A} a.
Arguments Raise {A} e.

Definition bind {A B} (c : result A) (k : A -> result B) : result B :=
  match c with
  | Ok a => k a
  | Raise e => Raise e
  end.

Definition raises {A} (c : result A) : Prop := exists e, c = Raise e.

(** [for x in xs: body], threading a state and stopping at the first
    exception. *)
Fixpoint for_each {A S} (body : S -> A -> result S) (xs : list A) (s : S)
  : result S :=
  match xs with
  | [] => Ok s
  | x :: xs' => bind (body s x) (for_each body xs')
  end.

(** [[f(x) for x in xs]] where [f] may raise. *)
Fixpoint map_r {A B} (f : A -> result B) (xs : list A) : result (list B) :=
  match xs with
  | [] => Ok []
  | x :: xs' =>
      bind (f x) (fun y => bind (map_r f xs') (fun ys => Ok (y :: ys)))
  end.

(** [s.startswith(p)] *)
Definition startswith (s p : string) : bool := String.prefix p s.

(** [s.split(sep)] for a one-character separator. *)
Fixpoint split (sep : ascii) (s : string) : list string :=
  match s with
  | EmptyString => [EmptyString]
  | String c s' =>
      if Ascii.eqb c sep then EmptyString :: split sep s'
      else match split sep s' with
           | [] => [String c EmptyString]
           | w :: ws => String c w :: ws
           end
  end.

(** [xs[i]] for a non-negative index. *)
Definition getitem {A} (xs : list A) (i : nat) : result A :=
  match nth_error xs i with
  | Some x => Ok x
  | None => Raise IndexError
  end.

Fixpoint upd {A} (xs : list A) (i : nat) (v : A) : list A :=
  match xs, i with
  | [], _ => []
  | _ :: xs', O => v :: xs'
  | x :: xs', S i' => x :: upd xs' i' v
  end.

(** [xs[i] = v]: a negative index counts from the end, an index outside
    [-len, len) raises [IndexError]. *)
Definition setitem {A} (xs : list A) (i : Z) (v : A) : result (list A) :=
  let n := Z.of_nat (List.length xs) in
  if (0 <=? i)%Z && (i <? n)%Z then Ok (upd xs (Z.to_nat i) v)
  else if (- n <=? i)%Z && (i <? 0)%Z then Ok (upd xs (Z.to_nat (n + i)) v)
  else Raise IndexError.

(** [range(a, b)] *)
Definition range (a b : Z) : list Z :=
  map (fun k => (a + Z.of_nat k)%Z) (seq 0 (Z.to_nat (b - a))).

Definition upper_ascii (c : ascii) : ascii :=
  let n := nat_of_ascii c in
  if ((97 <=? n) && (n <=? 122))%nat then ascii_of_nat (n - 32)%nat else c.

(** [s.upper()] on ASCII text; other bytes are left as they are.  Python
    upper-cases by Unicode rules, under which a few letters outside ASCII
    become ASCII letters; what must hold for every string is stated with
    the upper-casing function as a parameter. *)
Fixpoint upper (s : string) : string :=
  match s with
  | EmptyString => EmptyString
  | String c s' => String (upper_ascii c) (upper s')
  end.

(** [sub in s] *)
Fixpoint contains (sub s : string) : bool :=
  String.prefix sub s
  || match s with
     | EmptyString => false
     | String _ s' => contains sub s'
     end.

(** [x in xs] for a list of strings. *)
Definition mem (x : string) (xs : list string) : bool :=
  existsb (String.eqb x) xs.

End Py.

Import Py.

Notation "x <- c ;; k" := (Py.bind c (fun x => k))
  (at level 61, c at next level, right associativity).
Notation "' p <- c ;; k" := (Py.bind c (fun x => let p := x in k))
  (at level 61, p pattern, c at next level, right associativity).

(** ** The framework's tag dictionary *)

(** Modelled from the spec: the tag dictionary type [flair.data.Dictionary]
    is not among the sources.  The spec describes it as an ordered mapping
    from tag string to integer index with an optional unknown sentinel,
    supporting "is this span-level", "list items", "add item" and "index
    lookup".  The index of an item is its position in [idx2item]. *)
Record Dictionary : Type := mkDictionary {
  idx2item : list string;
  add_unk : bool;
  span_labels : bool
}.

Definition unk : string := "<unk>".

(** Modelled from the spec: [Dictionary(add_unk=...)], the constructor of
    the missing dictionary type; a new dictionary is not span-level. *)
Definition Dictionary_new (with_unk : bool) : Dictionary :=
  mkDictionary (if with_unk then [unk] else []) with_unk false.

(** Modelled from the spec: [d.add_item(item)] of the missing dictionary
    type ("add item"); an item already present keeps its index. *)
Definition add_item (d : Dictionary) (item : string) : Dictionary :=
  if mem item (idx2item d) then d
  else mkDictionary (idx2item d ++ [item])%list (add_unk d) (span_labels d).

(** Modelled from the spec: [d.get_items()] of the missing dictionary
    type ("list items"). *)
Definition get_items (d : Dictionary) : list string := idx2item d.

(** Modelled from the spec: [d.item2idx.items()] of the missing
    dictionary type, the pairs of tag and index in insertion order. *)
Definition item2idx_items (d : Dictionary) : list (string * nat) :=
  combine (idx2item d) (seq 0 (List.length (idx2item d))).

(** Modelled from the spec: [len(d)] of the missing dictionary type. *)
Definition Dictionary_len (d : Dictionary) : nat := List.length (idx2item d).

Fixpoint index_of (item : string) (xs : list string) : option nat :=
  match xs with
  | [] => None
  | x :: xs' =>
      if String.eqb item x then Some 0
      else option_map S (index_of item xs')
  end.

(** Modelled from the spec: [d.get_idx_for_item(item)] of the missing
    dictionary type ("index lookup"); an unknown item has the index of
    the sentinel when there is one. *)
Definition get_idx_for_item (d : Dictionary) (item : string) : result nat :=
  match index_of item (idx2item d) with
  | Some i => Ok i
  | None => if add_unk d then Ok 0 else Raise IndexError
  end.

(** Modelled from the spec: [d.get_item_for_index(idx)] of the missing
    dictionary type. *)
Definition get_item_for_index (d : Dictionary) (i : nat) : result string :=
  getitem (idx2item d) i.

Definition contains_item (d : Dictionary) (item : string) : Prop :=
  In item (idx2item d).

(** ** Label space builder *)

(** The phrase attached to one tag of the label dictionary, when there is
    one (lines 74-79).  A tag that starts with "B-" or "I-" splits into at
    least two parts, so [split("-")[1]] is always there. *)
Definition verbalize (label : string) : option string :=
  if String.eqb label "O" then Some "other"
  else if startswith label "B-" then
    Some ("begin " ++ nth 1 (split "-" label) "")
  else if startswith label "I-" then
    Some ("inside " ++ nth 1 (split "-" label) "")
  else None.

(** The loop filling [idx2verbalized_label]; a Python dict keeps its keys
    in insertion order and the keys here are distinct indices. *)
Fixpoint verbalize_items (items : list (string * nat)) : list (nat * string) :=
  match items with
  | [] => []
  | (label, idx) :: rest =>
      match verbalize label with
      | Some phrase => (idx, phrase) :: verbalize_items rest
      | None => verbalize_items rest
      end
  end.

(** The body of the loop over the base labels (lines 54-64), for the
    normalised format string [fmt]. *)
Definition expand_label (fmt : string) (d : Dictionary) (label : string)
  : Dictionary :=
  if String.eqb label unk then d
  else
    let d := add_item d "O" in
    let d := if String.eqb fmt "BIOES" then
               add_item (add_item (add_item (add_item d ("S-" ++ label))
                 ("B-" ++ label)) ("E-" ++ label)) ("I-" ++ label)
             else d in
    if String.eqb fmt "BIO" then
      add_item (add_item d ("B-" ++ label)) ("I-" ++ label)
    else d.

(** The fields of a [DualEncoder] that the label space builder sets. *)
Record DualEncoder : Type := mkDualEncoder {
  tag_type : string;
  tag_format : string;
  label_dictionary : Dictionary;
  predict_spans : bool;
  idx2verbalized_label : list (nat * string);
  tagset_size : nat
}.

(** [_init_verbalizers_and_tag_dictionary], with [self.tag_type] and
    [self.tag_format] already set. *)
Definition _init_verbalizers_and_tag_dictionary
    (tag_type tag_format : string) (tag_dictionary : Dictionary)
  : result DualEncoder :=
  ld <- (if span_labels tag_dictionary then
           if mem tag_format ["BIOES"; "BIO"] then
             Ok (fold_left (expand_label tag_format)
                   (get_items tag_dictionary) (Dictionary_new false))
           else Raise AssertionError
         else Ok tag_dictionary) ;;
  Ok (mkDualEncoder tag_type tag_format ld (span_labels tag_dictionary)
        (verbalize_items (item2idx_items ld)) (Dictionary_len ld)).

(** [DualEncoder.__init__], as far as the label space is concerned. *)
Definition DualEncoder_init (tag_dictionary : Dictionary)
    (tag_type tag_format : string) : result DualEncoder :=
  _init_verbalizers_and_tag_dictionary tag_type (upper tag_format)
    tag_dictionary.

(** [DualEncoder.__init__] again, with [str.upper] as the parameter
    [normalise]: line 33 stores [tag_format.upper()], and only that
    result is looked at afterwards. *)
Definition DualEncoder_init_with (normalise : string -> string)
    (tag_dictionary : Dictionary) (tag_type tag_format : string)
  : result DualEncoder :=
  _init_verbalizers_and_tag_dictionary tag_type (normalise tag_format)
    tag_dictionary.

(** ** Sentences, tokens and spans *)

(** Modelled from the spec: the sentence, token and span objects of the
    framework ([flair.data]) are not among the sources.  The spec has a
    sentence as an ordered sequence of tokens, each with optional
    span-level or token-level labels and a score, and a span as a
    contiguous token range with one label.  Scores and tensor entries are
    floating-point numbers in the program; here they are elements of an
    abstract type [R]. *)
Record Label (R : Type) : Type := mkLabel {
  l_typename : string;
  l_value : string;
  l_score : R
}.
Arguments mkLabel {R}.
Arguments l_typename {R}.
Arguments l_value {R}.
Arguments l_score {R}.

(** Modelled from the spec: a token of the missing object model; it knows
    its 1-based position [idx] in its sentence. *)
Record Token (R : Type) : Type := mkToken {
  idx : Z;
  text : string;
  t_labels : list (Label R)
}.
Arguments mkToken {R}.
Arguments idx {R}.
Arguments text {R}.
Arguments t_labels {R}.

(** Modelled from the spec: a span of the missing object model is the
    list of its tokens; [len(span)], [span[0]] and [span[-1]] are read
    off that list. *)
Definition Span (R : Type) : Type := list (Token R).

(** Modelled from the spec: a sentence of the missing object model, its
    tokens and the labels attached to spans of it. *)
Record Sentence (R : Type) : Type := mkSentence {
  tokens : list (Token R);
  span_annotations : list (Span R * Label R)
}.
Arguments mkSentence {R}.
Arguments tokens {R}.
Arguments span_annotations {R}.

(** [len(sentence)] *)
Definition Sentence_len {R} (s : Sentence R) : nat := List.length (tokens s).

(** Modelled from the spec: [sentence.get_labels(typename)] of the
    missing object model, the span-level labels of that type, each with
    the span it annotates ([label.data_point]). *)
Definition get_labels {R} (s : Sentence R) (typename : string)
  : list (Span R * Label R) :=
  filter (fun a => String.eqb (l_typename (snd a)) typename)
    (span_annotations s).

(** Modelled from the spec: [token.get_label(typename, zero_tag_value).value]
    of the missing object model. *)
Definition get_label_value {R} (t : Token R) (typename zero_tag_value : string)
  : string :=
  match filter (fun l => String.eqb (l_typename l) typename) (t_labels t) with
  | l :: _ => l_value l
  | [] => zero_tag_value
  end.

(** Modelled from the spec: [token.add_label(typename, value, score)] of
    the missing object model ("label attachment with value+score"). *)
Definition Token_add_label {R} (t : Token R) (typename value : string)
    (score : R) : Token R :=
  mkToken (idx t) (text t) (t_labels t ++ [mkLabel typename value score])%list.

Definition Token_remove_labels {R} (typename : string) (t : Token R)
  : Token R :=
  mkToken (idx t) (text t)
    (filter (fun l => negb (String.eqb (l_typename l) typename)) (t_labels t)).

(** Modelled from the spec: [sentence.remove_labels(typename)] of the
    missing object model. *)
Definition remove_labels {R} (typename : string) (s : Sentence R)
  : Sentence R :=
  mkSentence (map (Token_remove_labels typename) (tokens s))
    (filter (fun a => negb (String.eqb (l_typename (snd a)) typename))
       (span_annotations s)).

(** [span[-1]] *)
Definition getitem_last {A} (xs : list A) : result A :=
  match xs with
  | [] => Raise IndexError
  | x :: xs' => Ok (last xs' x)
  end.

(** ** Gold labels *)

(** The body of the loop over the labels of one sentence (lines 258-270). *)
Definition encode_span {R} (tag_format : string)
    (sentence_labels : list string) (span : Span R) (value : string)
  : result (list string) :=
  if String.eqb tag_format "BIOES" then
    if (List.length span =? 1)%nat then
      t0 <- getitem span 0 ;;
      setitem sentence_labels (idx t0 - 1) ("S-" ++ value)
    else
      t0 <- getitem span 0 ;;
      l1 <- setitem sentence_labels (idx t0 - 1) ("B-" ++ value) ;;
      tn <- getitem_last span ;;
      l2 <- setitem l1 (idx tn - 1) ("E-" ++ value) ;;
      for_each (fun ls i => setitem ls i ("I-" ++ value))
        (range (idx t0) (idx tn - 1)) l2
  else
    t0 <- getitem span 0 ;;
    l1 <- setitem sentence_labels (idx t0 - 1) ("B-" ++ value) ;;
    tn <- getitem_last span ;;
    for_each (fun ls i => setitem ls i ("I-" ++ value))
      (range (idx t0) (idx tn)) l1.

(** The token-level encoding of one sentence in span mode. *)
Definition sentence_gold_labels {R} (m : DualEncoder) (s : Sentence R)
  : result (list string) :=
  for_each
    (fun ls a => encode_span (tag_format m) ls (fst a) (l_value (snd a)))
    (get_labels s (tag_type m))
    (repeat "O" (Sentence_len s)).

(** [_get_gold_labels] *)
Definition _get_gold_labels {R} (m : DualEncoder) (sentences : list (Sentence R))
  : result (list (list string)) :=
  if predict_spans m then map_r (sentence_gold_labels m) sentences
  else
    Ok (map (fun s => map (fun t => get_label_value t (tag_type m) "O")
                        (tokens s)) sentences).

(** ** Tensors *)

Definition Matrix (R : Type) : Type := list (list R).

(** [torch.stack(rows)]: the list must not be empty and its tensors must
    have one shape. *)
Definition stack {R} (rows : list (list R)) : result (Matrix R) :=
  match rows with
  | [] => Raise RuntimeError
  | r :: rest =>
      if forallb (fun r' => (List.length r' =? List.length r)%nat) rest
      then Ok rows
      else Raise RuntimeError
  end.

(** [torch.split(xs, sizes)] for sizes that add up to [len(xs)]. *)
Fixpoint split_sizes {A} (xs : list A) (sizes : list nat) : list (list A) :=
  match sizes with
  | [] => []
  | n :: sizes' => firstn n xs :: split_sizes (skipn n xs) sizes'
  end.

(** The collaborators of the model: float arithmetic, the two encoders,
    the loss function, softmax followed by max, and the framework's span
    decoder. *)
Record Framework (R : Type) : Type := mkFramework {
  zero : R;
  add : R -> R -> R;
  mul : R -> R -> R;
  token_encoder : Sentence R -> Token R -> list R;
  label_encoder : string -> list R;
  loss_fct : Matrix R -> list nat -> R;
  softmax_max : list R -> R * nat;
  get_spans_from_bio : list string -> list R -> list (list nat * R * string)
}.
Arguments zero {R}.
Arguments add {R}.
Arguments mul {R}.
Arguments token_encoder {R}.
Arguments label_encoder {R}.
Arguments loss_fct {R}.
Arguments softmax_max {R}.
Arguments get_spans_from_bio {R}.

Section Scorer.

Variable R : Type.
Variable fw : Framework R.

Definition dot (u v : list R) : R :=
  fold_left (add fw) (map (fun p => mul fw (fst p) (snd p)) (combine u v))
    (zero fw).

(** [torch.mm(a, b.T)] for two matrices given by their rows: the rows of
    [a] and of [b] must have one length. *)
Definition mm_transposed (a b : Matrix R) : result (Matrix R) :=
  if (List.length (hd [] a) =? List.length (hd [] b))%nat
  then Ok (map (fun u => map (dot u) b) a)
  else Raise RuntimeError.

(** The cross-entropy loss wants one target per row, each a column of
    the logits. *)
Definition cross_entropy (logits : Matrix R) (targets : list nat)
  : result R :=
  if negb (List.length logits =? List.length targets)%nat
  then Raise ValueError
  else if forallb (fun t => (t <? List.length (hd [] logits))%nat) targets
  then Ok (loss_fct fw logits targets)
  else Raise IndexError.

(** Lines 89-104 of [forward]: the logits of a batch. *)
Definition forward_logits (m : DualEncoder) (sentences : list (Sentence R))
  : result (Matrix R) :=
  let all_tokens_in_batch :=
    flat_map (fun s => map (token_encoder fw s) (tokens s)) sentences in
  token_embedding_tensor <- stack all_tokens_in_batch ;;
  let verbalized_labels := map snd (idx2verbalized_label m) in
  let label_tensor := map (label_encoder fw) verbalized_labels in
  labels <- stack label_tensor ;;
  mm_transposed token_embedding_tensor labels.

Definition Predictions : Type := list (list (string * R)).

(** The sizes that lines 125-134 hand to [torch.split]: the row sums of
    the padded mask.  [pad_sequence] wants at least one sequence and
    takes its element type from the first one; the mask of a sentence
    without tokens is a tensor of floats, so with such a sentence in
    front the sums are floats and [torch.split] refuses them. *)
Definition split_lengths (sentences : list (Sentence R)) : result (list nat) :=
  match sentences with
  | [] => Raise RuntimeError
  | s0 :: _ =>
      if (Sentence_len s0 =? 0)%nat then Raise TypeError
      else Ok (map Sentence_len sentences)
  end.

(** Lines 122-143 of [forward]; [torch.split] also wants sizes that add
    up to the number of rows. *)
Definition decode_predictions (m : DualEncoder)
    (sentences : list (Sentence R)) (logits : Matrix R)
  : result Predictions :=
  let best := map (softmax_max fw) logits in
  lengths <- split_lengths sentences ;;
  if negb (list_sum lengths =? List.length best)%nat then Raise RuntimeError
  else
    let scores := split_sizes (map fst best) lengths in
    let preds := split_sizes (map snd best) lengths in
    map_r (fun ps =>
             map_r (fun p => item <- get_item_for_index (label_dictionary m)
                                       (fst p) ;;
                             Ok (item, snd p))
                   (combine (fst ps) (snd ps)))
          (combine preds scores).

(** What [forward] returns depends on its two flags. *)
Definition forward_ret (inference return_features : bool) : Type :=
  if inference && return_features then (R * Predictions * Matrix R)%type
  else if return_features then (R * Matrix R)%type
  else R.

(** [forward] *)
Definition forward (m : DualEncoder) (sentences : list (Sentence R))
    (inference return_features : bool)
  : result (forward_ret inference return_features) :=
  logits <- forward_logits m sentences ;;
  gold <- _get_gold_labels m sentences ;;
  gold_label_tensor <- map_r (get_idx_for_item (label_dictionary m))
                         (List.concat gold) ;;
  loss <- cross_entropy logits gold_label_tensor ;;
  match inference, return_features
    return result (forward_ret inference return_features) with
  | true, true =>
      decoded_predictions <- decode_predictions m sentences logits ;;
      Ok (loss, decoded_predictions, logits)
  | false, true => Ok (loss, logits)
  | _, false => Ok loss
  end.

(** [forward_loss] *)
Definition forward_loss (m : DualEncoder) (sentences : list (Sentence R))
  : result (R * nat) :=
  if (List.length sentences =? 0)%nat then Ok (zero fw, 0%nat)
  else
    loss <- forward m sentences false false ;;
    Ok (loss, list_sum (map Sentence_len sentences)).

End Scorer.

Arguments dot {R}.
Arguments mm_transposed {R}.
Arguments cross_entropy {R}.
Arguments forward_logits {R}.
Arguments split_lengths {R}.
Arguments decode_predictions {R}.
Arguments forward {R}.
Arguments forward_loss {R}.

(** ** Prediction *)

(** What [predict] hands back: its argument when that is empty, the pair
    of loss and label count when [return_loss] is set, and [None]
    otherwise. *)
Inductive PredictReturn (R : Type) : Type :=
| ReturnSentences (sentences : list (Sentence R))
| ReturnLoss (overall_loss : R) (label_count : nat)
| ReturnNone.
Arguments ReturnSentences {R}.
Arguments ReturnLoss {R}.
Arguments ReturnNone {R}.

(** The batches a [DataLoader] yields; [fuel] bounds their number. *)
Fixpoint batches {A} (fuel batch_size : nat) (xs : list A) : list (list A) :=
  match fuel, xs with
  | _, [] => []
  | O, _ :: _ => []
  | S fuel', _ :: _ =>
      firstn batch_size xs :: batches fuel' batch_size (skipn batch_size xs)
  end.

(** [DataLoader(dataset, batch_size)] wants a positive batch size. *)
Definition DataLoader {A} (dataset : list A) (batch_size : nat)
  : result (list (list A)) :=
  if (batch_size =? 0)%nat then Raise ValueError
  else Ok (batches (List.length dataset) batch_size dataset).

(** [loss, preds = t] for a 0-dimensional tensor [t]: a tensor without
    dimensions cannot be iterated. *)
Definition unpack_loss_preds {R} (t : R) : result (R * list (list (string * R))) :=
  Raise TypeError.

(** Lines 237-240: the token-level labels of one sentence. *)
Fixpoint label_tokens {R} (label_name : string) (toks : list (Token R))
    (sentence_predictions : list (string * R)) : list (Token R) :=
  match toks, sentence_predictions with
  | t :: toks', label :: rest =>
      (if mem (fst label) ["O"; "_"] then t
       else Token_add_label t label_name (fst label) (snd label))
      :: label_tokens label_name toks' rest
  | _, _ => toks
  end.

Section Predict.

Variable R : Type.
Variable fw : Framework R.
Variable m : DualEncoder.

(** [sentence[a : b + 1]] with its new label (lines 232-233). *)
Definition add_span_label (label_name : string) (s : Sentence R)
    (predicted_span : list nat * R * string) : result (Sentence R) :=
  let '(positions, score, value) := predicted_span in
  a <- getitem positions 0 ;;
  b <- getitem_last positions ;;
  let span := firstn (b + 1 - a) (skipn a (tokens s)) in
  Ok (mkSentence (tokens s)
        (span_annotations s ++ [(span, mkLabel label_name value score)])%list).

(** Lines 227-240: the predictions of one sentence are attached to it. *)
Definition add_predictions (label_name : string)
    (force_token_predictions : bool) (sentence : Sentence R)
    (sentence_predictions : list (string * R)) : result (Sentence R) :=
  if predict_spans m && negb force_token_predictions then
    let sentence_tags := map fst sentence_predictions in
    let sentence_scores := map snd sentence_predictions in
    for_each (add_span_label label_name)
      (get_spans_from_bio fw sentence_tags sentence_scores) sentence
  else
    Ok (mkSentence
          (label_tokens label_name (tokens sentence) sentence_predictions)
          (span_annotations sentence)).

(** [for sentence, sentence_predictions in zip(batch, preds)] *)
Fixpoint add_batch_predictions (label_name : string)
    (force_token_predictions : bool) (batch : list (Sentence R))
    (preds : Predictions R) : result (list (Sentence R)) :=
  match batch, preds with
  | s :: batch', p :: preds' =>
      s' <- add_predictions label_name force_token_predictions s p ;;
      rest <- add_batch_predictions label_name force_token_predictions
                batch' preds' ;;
      Ok (s' :: rest)
  | _, _ => Ok batch
  end.

(** The state of the loop over the batches: the sentences handled so
    far, the loss and the label count. *)
Definition PredictState : Type := (list (Sentence R) * R * nat)%type.

(** The body of the loop over the batches (lines 210-242). *)
Definition predict_batch (label_name : string)
    (return_loss force_token_predictions : bool)
    (st : PredictState) (batch : list (Sentence R)) : result PredictState :=
  let '(done, overall_loss, label_count) := st in
  match batch with
  | [] => Ok st
  | _ :: _ =>
      let batch := map (remove_labels label_name) batch in
      out <- forward fw m batch true false ;;
      '(loss, preds) <- unpack_loss_preds out ;;
      let overall_loss :=
        if return_loss then add fw overall_loss loss else overall_loss in
      let label_count :=
        if return_loss
        then (label_count + list_sum (map (@List.length _) preds))%nat
        else label_count in
      batch <- add_batch_predictions label_name force_token_predictions
                 batch preds ;;
      Ok ((done ++ batch)%list, overall_loss, label_count)
  end.

(** [predict], for a list of sentences. *)
Definition predict (sentences : list (Sentence R)) (mini_batch_size : nat)
    (label_name : option string)
    (return_loss force_token_predictions : bool)
  : result (list (Sentence R) * PredictReturn R) :=
  let label_name :=
    match label_name with Some n => n | None => tag_type m end in
  match sentences with
  | [] => Ok (sentences, ReturnSentences sentences)
  | _ :: _ =>
      let sentences :=
        filter (fun s => (0 <? Sentence_len s)%nat) sentences in
      dataloader <- DataLoader sentences mini_batch_size ;;
      '(done, overall_loss, label_count) <-
        for_each (predict_batch label_name return_loss
                    force_token_predictions)
          dataloader ([], zero fw, 0%nat) ;;
      Ok (done,
          if return_loss then ReturnLoss overall_loss label_count
          else ReturnNone)
  end.

End Predict.

Arguments add_span_label {R}.
Arguments add_predictions {R}.
Arguments add_batch_predictions {R}.
Arguments predict_batch {R}.
Arguments predict {R}.

(** ** Corpus selection *)

Definition LabelNameMap : Type := list (string * string).

Definition wnut_17_label_name_map : LabelNameMap :=
  [("corporation", "corporation"); ("creative-work", "creative work");
   ("group", "group"); ("location", "location"); ("person", "person");
   ("product", "product")].

Definition conll_03_label_name_map : LabelNameMap :=
  [("PER", "person"); ("LOC", "location"); ("ORG", "organization");
   ("MISC", "miscellaneous")].

Definition ontonotes_label_name_map : LabelNameMap :=
  [("CARDINAL", "cardinal"); ("DATE", "date"); ("EVENT", "event");
   ("FAC", "facility"); ("GPE", "geographical social political entity");
   ("LANGUAGE", "language"); ("LAW", "law"); ("LOC", "location");
   ("MONEY", "money"); ("NORP", "nationality religion political");
   ("ORDINAL", "ordinal"); ("ORG", "organization"); ("PERCENT", "percent");
   ("PERSON", "person"); ("PRODUCT", "product"); ("QUANTITY", "quantity");
   ("TIME", "time"); ("WORK_OF_ART", "work of art")].

Definition fewnerd_fine_label_name_map : LabelNameMap :=
  [("location-GPE", "geographical social political entity");
   ("person-other", "other person");
   ("organization-other", "other organization");
   ("organization-company", "company");
   ("person-artist/author", "author artist"); ("person-athlete", "athlete");
   ("person-politician", "politician"); ("building-other", "other building");
   ("organization-sportsteam", "sportsteam");
   ("organization-education", "eduction");
   ("location-other", "other location"); ("other-biologything", "biology");
   ("location-road/railway/highway/transit", "road railway highway transit");
   ("person-actor", "actor"); ("product-other", "other product");
   ("event-sportsevent", "sportsevent");
   ("organization-government/governmentagency", "government agency");
   ("location-bodiesofwater", "bodies of water");
   ("organization-media/newspaper", "media newspaper");
   ("art-music", "music"); ("other-chemicalthing", "chemical");
   ("event-attack/battle/war/militaryconflict", "attack war battle military conflict");
   ("organization-politicalparty", "political party");
   ("art-writtenart", "written art"); ("other-award", "award");
   ("other-livingthing", "living thing"); ("event-other", "other event");
   ("art-film", "film"); ("product-software", "software");
   ("organization-sportsleague", "sportsleague");
   ("other-language", "language"); ("other-disease", "disease");
   ("organization-showorganization", "show organization");
   ("product-airplane", "airplane"); ("other-astronomything", "astronomy");
   ("organization-religion", "religion"); ("product-car", "car");
   ("person-scholar", "scholar"); ("other-currency", "currency");
   ("person-soldier", "soldier"); ("location-mountain", "mountain");
   ("art-broadcastprogram", "broadcastprogram");
   ("location-island", "island"); ("art-other", "other art");
   ("person-director", "director"); ("product-weapon", "weapon");
   ("other-god", "god"); ("building-theater", "theater");
   ("other-law", "law"); ("product-food", "food");
   ("other-medical", "medical"); ("product-game", "game");
   ("location-park", "park"); ("product-ship", "ship");
   ("building-sportsfacility", "sportsfacility");
   ("other-educationaldegree", "educational degree");
   ("building-airport", "airport"); ("building-hospital", "hospital");
   ("product-train", "train"); ("building-library", "library");
   ("building-hotel", "hotel"); ("building-restaurant", "restaurant");
   ("event-disaster", "disaster"); ("event-election", "election");
   ("event-protest", "protest"); ("art-painting", "painting")].

Definition fewnerd_coarse_label_name_map : LabelNameMap :=
  [("location-GPE", "location"); ("person-other", "person");
   ("organization-other", "organization");
   ("organization-company", "organization");
   ("person-artist/author", "person"); ("person-athlete", "person");
   ("person-politician", "person"); ("building-other", "building");
   ("organization-sportsteam", "organization");
   ("organization-education", "organization"); ("location-other", "location");
   ("other-biologything", "biology");
   ("location-road/railway/highway/transit", "location");
   ("person-actor", "person"); ("product-other", "product");
   ("event-sportsevent", "event");
   ("organization-government/governmentagency", "organization");
   ("location-bodiesofwater", "location");
   ("organization-media/newspaper", "organization"); ("art-music", "art");
   ("other-chemicalthing", "chemical");
   ("event-attack/battle/war/militaryconflict", "event");
   ("organization-politicalparty", "organization"); ("art-writtenart", "art");
   ("other-award", "award"); ("other-livingthing", "living thing");
   ("event-other", "event"); ("art-film", "art");
   ("product-software", "product");
   ("organization-sportsleague", "organization");
   ("other-language", "language"); ("other-disease", "disease");
   ("organization-showorganization", "organization");
   ("product-airplane", "product"); ("other-astronomything", "astronomy");
   ("organization-religion", "organization"); ("product-car", "product");
   ("person-scholar", "person"); ("other-currency", "currency");
   ("person-soldier", "person"); ("location-mountain", "location");
   ("art-broadcastprogram", "art"); ("location-island", "location");
   ("art-other", "art"); ("person-director", "person");
   ("product-weapon", "product"); ("other-god", "god");
   ("building-theater", "building"); ("other-law", "law");
   ("product-food", "product"); ("other-medical", "medical");
   ("product-game", "product"); ("location-park", "location");
   ("product-ship", "product"); ("building-sportsfacility", "building");
   ("other-educationaldegree", "educational degree");
   ("building-airport", "building"); ("building-hospital", "building");
   ("product-train", "product"); ("building-library", "building");
   ("building-hotel", "building"); ("building-restaurant", "building");
   ("event-disaster", "event"); ("event-election", "event");
   ("event-protest", "event"); ("art-painting", "art")].

(** The dataset loaders of the framework, the sentences of a corpus's
    training split and the replacement of that split by a subset of it. *)
Record Datasets : Type := mkDatasets {
  Corpus : Type;
  WNUT_17 : LabelNameMap -> Corpus;
  CONLL_03 : string -> list (nat * string) -> LabelNameMap -> Corpus;
  ONTONOTES : LabelNameMap -> Corpus;
  FEWNERD : LabelNameMap -> Corpus;
  train_texts : Corpus -> list string;
  with_train_subset : Corpus -> list nat -> Corpus
}.

(** The indices of the training sentences that are no document
    separators (lines 24-27). *)
Fixpoint valid_indices (texts : list string) (i : nat) : list nat :=
  match texts with
  | [] => []
  | t :: texts' =>
      if contains "DOCSTART" t then valid_indices texts' (S i)
      else i :: valid_indices texts' (S i)
  end.

(** [get_corpus]; a Python function that reaches its end returns [None]. *)
Definition get_corpus (ds : Datasets) (corpus fewnerd_granularity : string)
  : result (option (Corpus ds)) :=
  if String.eqb corpus "wnut_17" then
    Ok (Some (WNUT_17 ds wnut_17_label_name_map))
  else if String.eqb corpus "conll_03" then
    let dataset :=
      CONLL_03 ds "data"
        [(0, "text"); (1, "pos"); (2, "chunk"); (3, "ner")]%nat
        conll_03_label_name_map in
    Ok (Some (with_train_subset ds dataset
                (valid_indices (train_texts ds dataset) 0)))
  else if String.eqb corpus "ontonotes" then
    Ok (Some (ONTONOTES ds ontonotes_label_name_map))
  else if String.eqb corpus "fewnerd" then
    if String.eqb fewnerd_granularity "fine" then
      Ok (Some (FEWNERD ds fewnerd_fine_label_name_map))
    else if String.eqb fewnerd_granularity "coarse" then
      Ok (Some (FEWNERD ds fewnerd_coarse_label_name_map))
    else Ok None
  else Raise (Exception "no valid corpus.").

(** A [Datasets] whose corpora are plain records of what a loader was
    given, with the texts of the training split. *)
Record ListedCorpus : Type := mkListedCorpus {
  loader : string;
  name_map : LabelNameMap;
  listed_train : list string
}.

Definition listed_datasets (conll_train : list string) : Datasets :=
  mkDatasets ListedCorpus
    (fun lm => mkListedCorpus "WNUT_17" lm [])
    (fun _ _ lm => mkListedCorpus "CONLL_03" lm conll_train)
    (fun lm => mkListedCorpus "ONTONOTES" lm [])
    (fun lm => mkListedCorpus "FEWNERD" lm [])
    listed_train
    (fun c keep =>
       mkListedCorpus (loader c) (name_map c)
         (flat_map (fun i => match nth_error (listed_train c) i with
                             | Some t => [t]
                             | None => []
                             end) keep)).

(** A framework over the integers with constant two-dimensional
    embeddings, for running the model on examples. *)
Definition constant_framework : Framework Z :=
  mkFramework Z 0%Z Z.add Z.mul
    (fun _ _ => [1%Z; 2%Z]) (fun _ => [3%Z; 4%Z])
    (fun _ _ => 0%Z) (fun _ => (1%Z, 0%nat)) (fun _ _ => []).

(** A sentence of five tokens with the gold spans "X" on its first token
    and "Y" on its last three, and a span-mode model for the format
    [fmt]. *)
Definition five_tokens : list (Token Z) :=
  [mkToken 1 "Ada" []; mkToken 2 "visited" []; mkToken 3 "New" [];
   mkToken 4 "York" []; mkToken 5 "City" []].

Definition five_token_sentence : Sentence Z :=
  mkSentence five_tokens
    [(firstn 1 five_tokens, mkLabel "ner" "X" 1%Z);
     (skipn 2 five_tokens, mkLabel "ner" "Y" 1%Z)].

Definition span_model (fmt : string) : DualEncoder :=
  mkDualEncoder "ner" fmt (mkDictionary [] false false) true [] 0.

(** A token-level model over the flat tag dictionary B-person, I-person,
    O, as construction builds it. *)
Definition token_model : DualEncoder :=
  mkDualEncoder "ner" "BIO"
    (mkDictionary ["B-person"; "I-person"; "O"] false false) false
    [(0, "begin person"); (1, "inside person"); (2, "other")] 3.

(** A framework like [constant_framework] whose span decoder reports one
    span "Y" on the positions 2 to 4, whatever the tags. *)
Definition one_span_framework : Framework Z :=
  mkFramework Z 0%Z Z.add Z.mul
    (fun _ _ => [1%Z; 2%Z]) (fun _ => [3%Z; 4%Z])
    (fun _ _ => 0%Z) (fun _ => (1%Z, 0%nat))
    (fun _ _ => [([2; 3; 4], 5%Z, "Y")]).

(** ** Reference descriptions used in the statements *)

(** The formats the constructor's assertion lets through. *)
Definition supported (fmt : string) : Prop := fmt = "BIO" \/ fmt = "BIOES".

(** The prefixed variants that lines 57-64 add for one base label. *)
Definition expanded_tags (fmt label : string) : list string :=
  List.app
    (if String.eqb fmt "BIOES"
     then ["S-" ++ label; "B-" ++ label; "E-" ++ label; "I-" ++ label]
     else [])
    (if String.eqb fmt "BIO" then ["B-" ++ label; "I-" ++ label] else []).

(** The base labels of a tag dictionary: its items without the unknown
    sentinel. *)
Definition base_labels (d : Dictionary) : list string :=
  filter (fun l => negb (String.eqb l unk)) (get_items d).

(** The items of the expanded dictionary for a list of base labels. *)
Definition expanded_items (fmt : string) (labels : list string) : list string :=
  match labels with
  | [] => []
  | _ :: _ => "O" :: flat_map (expanded_tags fmt) labels
  end.

(** Position [p] of a sentence, counted from 0, belongs to the span. *)
Definition covers {R} (span : Span R) (p : nat) : bool :=
  existsb (fun t => (idx t =? Z.of_nat p + 1)%Z) span.

Fixpoint consecutive_from {R} (z : Z) (span : Span R) : bool :=
  match span with
  | [] => true
  | t :: rest => (idx t =? z)%Z && consecutive_from (z + 1) rest
  end.

(** A span of a sentence of [len] tokens: a non-empty run of tokens with
    consecutive positions between 1 and [len]. *)
Definition span_in_sentence {R} (len : nat) (span : Span R) : bool :=
  match span with
  | [] => false
  | t0 :: _ =>
      (1 <=? idx t0)%Z && consecutive_from (idx t0) span
      && (idx t0 + Z.of_nat (List.length span) - 1 <=? Z.of_nat len)%Z
  end.

Definition first_idx {R} (span : Span R) : Z :=
  match span with t0 :: _ => idx t0 | [] => 0%Z end.

Definition last_idx {R} (span : Span R) : Z :=
  match span with t0 :: rest => idx (last rest t0) | [] => 0%Z end.

(** The tag of position [p] of a span that carries the label [value]:
    under BIOES a span of one token is "S-", a longer one has "B-" on its
    first token, "E-" on its last and "I-" in between; otherwise the
    first token has "B-" and all others "I-". *)
Definition span_tag {R} (fmt : string) (span : Span R) (value : string)
    (p : nat) : string :=
  if String.eqb fmt "BIOES" then
    if (List.length span =? 1)%nat then "S-" ++ value
    else if (Z.of_nat p + 1 =? first_idx span)%Z then "B-" ++ value
    else if (Z.of_nat p + 1 =? last_idx span)%Z then "E-" ++ value
    else "I-" ++ value
  else
    if (Z.of_nat p + 1 =? first_idx span)%Z then "B-" ++ value
    else "I-" ++ value.

Definition disjoint_spans {R} (a b : Span R) : Prop :=
  forall p, covers a p = true -> covers b p = false.

(** The gold annotations of a sentence that [_get_gold_labels] reads. *)
Definition gold_spans {R} (m : DualEncoder) (s : Sentence R)
  : list (Span R * Label R) :=
  get_labels s (tag_type m).

(** [labels] is the token-level encoding of the gold spans of [s]. *)
Definition encodes {R} (m : DualEncoder) (s : Sentence R)
    (labels : list string) : Prop :=
  List.length labels = Sentence_len s
  /\ (forall a p, In a (gold_spans m s) -> covers (fst a) p = true ->
        nth_error labels p
        = Some (span_tag (tag_format m) (fst a) (l_value (snd a)) p))
  /\ (forall p, (p < Sentence_len s)%nat ->
        (forall a, In a (gold_spans m s) -> covers (fst a) p = false) ->
        nth_error labels p = Some "O").

(** Whether a tag of the label dictionary gets a phrase. *)
Definition verbalized (tag : string) : bool :=
  match verbalize tag with Some _ => true | None => false end.

(** Labels without a hyphen. *)
Fixpoint hyphen_free (s : string) : bool :=
  match s with
  | EmptyString => true
  | String c s' => negb (Ascii.eqb c "-") && hyphen_free s'
  end.

(** Modelled from the spec: the spec speaks of re-deriving the base label
    from a generated phrase, and the sources have no function that does
    it.  Phrase generation maps the prefix to a word and the suffix to the
    label text, so the label is read as the text after the first blank. *)
Fixpoint base_label_of_phrase (phrase : string) : option string :=
  match phrase with
  | EmptyString => None
  | String c rest =>
      if Ascii.eqb c " " then Some rest else base_label_of_phrase rest
  end.

(** ** Persisted state *)

(** The entries of [_get_state_dict] that describe the label space: the
    label dictionary (already expanded), the format and the tag type. *)
Record LabelSpaceState : Type := mkLabelSpaceState {
  state_tag_dictionary : Dictionary;
  state_tag_format : string;
  state_tag_type : string
}.

(** [_get_state_dict], as far as the label space is concerned. *)
Definition _get_state_dict (m : DualEncoder) : LabelSpaceState :=
  mkLabelSpaceState (label_dictionary m) (tag_format m) (tag_type m).

(** Modelled from the spec: [_init_model_with_state_dict] passes the
    entries of the state on as the keyword arguments [tag_dictionary],
    [tag_format] and [tag_type]; the base class's loader that receives
    them is not among the sources.  The persisted state holds the expanded
    tag dictionary and the format string, and the model is rebuilt from
    them by its constructor. *)
Definition _init_model_with_state_dict (state : LabelSpaceState)
  : result DualEncoder :=
  DualEncoder_init (state_tag_dictionary state) (state_tag_type state)
    (state_tag_format state).

(** ** Printing predictions *)

(** The line feed that ends every printed line. *)
Definition newline : string := String (ascii_of_nat 10) EmptyString.

(** Modelled from the spec: [token.set_label(typename, value)] of the
    missing object model replaces the token's labels of that type by one
    label with the default score, here [one]. *)
Definition Token_set_label {R} (one : R) (typename value : string)
    (t : Token R) : Token R :=
  mkToken (idx t) (text t)
    (filter (fun l => negb (String.eqb (l_typename l) typename)) (t_labels t)
     ++ [mkLabel typename value one])%list.

(** The tokens of a span are the token objects of the sentence: setting
    a label on the span's token with position [i] changes the sentence's
    token with that position. *)
Definition set_label_at {R} (one : R) (typename value : string) (i : Z)
    (toks : list (Token R)) : list (Token R) :=
  map (fun t => if (idx t =? i)%Z then Token_set_label one typename value t
                else t) toks.

(** Lines 292-295 and 300-303: the tokens of one span get the label with
    the running prefix, "B-" first and "I-" from then on. *)
Fixpoint mark_span {R} (one : R) (typename value prefix : string)
    (span : Span R) (toks : list (Token R)) : list (Token R) :=
  match span with
  | [] => toks
  | t :: rest =>
      mark_span one typename value "I-" rest
        (set_label_at one typename (prefix ++ value) (idx t) toks)
  end.

Definition mark_spans {R} (one : R) (typename : string)
    (anns : list (Span R * Label R)) (toks : list (Token R))
  : list (Token R) :=
  fold_left (fun toks a =>
               mark_span one typename (l_value (snd a)) "B-" (fst a) toks)
    anns toks.

(** The three-column line of one token. *)
Definition eval_line {R} (gold_type predicted_type : string) (t : Token R)
  : string :=
  text t ++ " " ++ get_label_value t gold_type "O" ++ " "
  ++ get_label_value t predicted_type "O" ++ newline.

(** The body of the loop over the batch in span mode (lines 284-313):
    the sentence with the labels set on its tokens, and its lines. *)
Definition print_spans {R} (one : R) (gold_label_type : string)
    (s : Sentence R) : Sentence R * list string :=
  let toks :=
    map (fun t => Token_set_label one "predicted_bio" "O"
                    (Token_set_label one "gold_bio" "O" t)) (tokens s) in
  let toks := mark_spans one "gold_bio" (get_labels s gold_label_type) toks in
  let toks := mark_spans one "predicted_bio" (get_labels s "predicted") toks in
  (mkSentence toks (span_annotations s),
   (map (eval_line "gold_bio" "predicted_bio") toks ++ [newline])%list).

(** The body of the loop over the batch in token mode (lines 317-325). *)
Definition print_tokens {R} (gold_label_type : string) (s : Sentence R)
  : Sentence R * list string :=
  (s, (map (eval_line gold_label_type "predicted") (tokens s)
       ++ [newline])%list).

(** [_print_predictions]: the batch as the call leaves it, and the lines
    it returns. *)
Definition _print_predictions {R} (one : R) (m : DualEncoder)
    (batch : list (Sentence R)) (gold_label_type : string)
  : list (Sentence R) * list string :=
  let printed :=
    map (if predict_spans m then print_spans one gold_label_type
         else print_tokens gold_label_type) batch in
  (map fst printed, List.concat (map snd printed)).

(** ** The fine-tuning script *)

Module LPFT.

Inductive Scheduler : Type := AnnealOnPlateau | LinearSchedulerWithWarmup.

Inductive PurePath : Type := Path (s : string).

(** The parsed command line. *)
Record Args (R : Type) : Type := mkArgs {
  cuda : bool;
  cuda_device : Z;
  seed : Z;
  cache_path : string;
  pretrained_model_path : option string;
  corpus : string;
  fewnerd_granularity : string;
  transformer : string;
  use_context : bool;
  lr : R;
  bs : Z;
  mbs : Z;
  epochs : Z;
  early_stopping : bool;
  min_lr : R
}.
Arguments cuda {R}.
Arguments cuda_device {R}.
Arguments seed {R}.
Arguments cache_path {R}.
Arguments pretrained_model_path {R}.
Arguments corpus {R}.
Arguments fewnerd_granularity {R}.
Arguments transformer {R}.
Arguments use_context {R}.
Arguments lr {R}.
Arguments bs {R}.
Arguments mbs {R}.
Arguments epochs {R}.
Arguments early_stopping {R}.
Arguments min_lr {R}.

(** The arguments of [trainer.fine_tune]. *)
Record FineTune (R : Type) : Type := mkFineTune {
  base_path : PurePath;
  learning_rate : R;
  mini_batch_size : Z;
  mini_batch_chunk_size : Z;
  max_epochs : Z;
  scheduler : Scheduler;
  train_with_dev : bool;
  min_learning_rate : R;
  save_final_model : bool
}.
Arguments mkFineTune {R}.
Arguments base_path {R}.
Arguments learning_rate {R}.
Arguments mini_batch_size {R}.
Arguments mini_batch_chunk_size {R}.
Arguments max_epochs {R}.
Arguments scheduler {R}.
Arguments train_with_dev {R}.
Arguments min_learning_rate {R}.
Arguments save_final_model {R}.

(** What the script does to the outside: it sets the device, loads the
    tagger and runs the trainer on a corpus. *)
Inductive Event (R C : Type) : Type :=
| SetDevice (device : string)
| LoadTagger (path : option string)
| Train (corpus : option C) (call : FineTune R).
Arguments SetDevice {R C}.
Arguments LoadTagger {R C}.
Arguments Train {R C}.

(** An integer in an f-string. *)
Definition format_int (z : Z) : string :=
  DecimalString.NilEmpty.string_of_int (Z.to_int z).

(** [main]: the calls it makes to the outside, in order, and how its own
    code ends: with the selector's exception, or by handing over to the
    trainer.  What the framework does inside [SequenceTagger.load],
    [ModelTrainer] and [fine_tune], failures included, is not part of
    this model, and [Path s] stands for the call [Path(s)] without
    pathlib's normalisation.  [format_float] writes a float in an
    f-string and [milli] is the float 0.001. *)
Definition main {R} (format_float : R -> string) (milli : R) (ds : Datasets)
    (args : Args R) : list (Event R (Corpus ds)) * result unit :=
  let device :=
    if cuda args
    then [SetDevice ("cuda:" ++ format_int (cuda_device args))]
    else [] in
  let save_base_path :=
    Path (cache_path args ++ "/pretrained-flert/" ++ transformer args
          ++ (if use_context args then "-context" else "") ++ "_"
          ++ corpus args ++ fewnerd_granularity args ++ "_"
          ++ format_float (lr args) ++ "_" ++ format_int (seed args)
          ++ "_LPFT-model/") in
  match get_corpus ds (corpus args) (fewnerd_granularity args) with
  | Raise e => (device, Raise e)
  | Ok c =>
      ((device
        ++ [LoadTagger (pretrained_model_path args);
            Train c
              (mkFineTune save_base_path (lr args) (bs args) (mbs args)
                 (epochs args)
                 (if early_stopping args then AnnealOnPlateau
                  else LinearSchedulerWithWarmup)
                 (early_stopping args)
                 (if early_stopping args then min_lr args else milli)
                 true)])%list,
       Ok tt)
  end.

(** The command line with the parser's defaults, for a given model path
    and corpus, over the integers (learning rates in units of 1e-7). *)
Definition default_args (path corpus_name : string) : Args Z :=
  mkArgs Z true 2%Z 123%Z "/glusterfs/dfs-gfs-dist/goldejon/flair-models"
    (Some path) corpus_name "" "bert-base-uncased" false 100%Z 4%Z 4%Z 10%Z
    false 5%Z.

End LPFT.

(** The tokens of a sentence carry their positions, counted from 1. *)
Definition numbered {R} (toks : list (Token R)) : Prop :=
  forall p t, nth_error toks p = Some t -> idx t = (Z.of_nat p + 1)%Z.

(** * Properties *)

(** ** The label space builder *)

Lemma mem_In (x : string) (xs : list string) : mem x xs = true <-> In x xs.
Proof.
  unfold mem. rewrite existsb_exists. split.
  - intros [y [Hy Heq]]. apply String.eqb_eq in Heq. now subst.
  - intros H. exists x. split; [assumption | apply String.eqb_refl].
Qed.

Lemma mem_not_In (x : string) (xs : list string) :
  mem x xs = false <-> ~ In x xs.
Proof.
  rewrite <- mem_In. destruct (mem x xs); split; congruence.
Qed.

Lemma add_item_present (d : Dictionary) (item : string) :
  In item (idx2item d) -> add_item d item = d.
Proof.
  intros H. unfold add_item. apply mem_In in H. now rewrite H.
Qed.

Lemma add_item_fresh (d : Dictionary) (item : string) :
  ~ In item (idx2item d) ->
  idx2item (add_item d item) = (idx2item d ++ [item])%list.
Proof.
  intros H. unfold add_item. apply mem_not_In in H. now rewrite H.
Qed.

(** Adding a run of new, pairwise different items appends them in order. *)
Lemma add_items_fresh (ts : list string) : forall d : Dictionary,
  NoDup ts -> (forall t, In t ts -> ~ In t (idx2item d)) ->
  idx2item (fold_left add_item ts d) = (idx2item d ++ ts)%list.
Proof.
  induction ts as [| t ts IH]; intros d Hnd Hfresh; simpl.
  - now rewrite app_nil_r.
  - inversion Hnd as [| ? ? Hnotin Hnd']; subst.
    rewrite IH; trivial.
    + rewrite add_item_fresh by (apply Hfresh; now left).
      now rewrite <- app_assoc.
    + intros u Hu. rewrite add_item_fresh by (apply Hfresh; now left).
      rewrite in_app_iff. intros [Hin | [Heq | []]].
      * apply (Hfresh u); [now right | assumption].
      * subst. contradiction.
Qed.

(** The loop body, read as "add O, then the prefixed variants". *)
Lemma expand_label_tags (fmt : string) (d : Dictionary) (label : string) :
  label <> unk ->
  expand_label fmt d label
  = fold_left add_item (expanded_tags fmt label) (add_item d "O").
Proof.
  intros Hne. unfold expand_label, expanded_tags.
  apply String.eqb_neq in Hne. rewrite Hne.
  destruct (String.eqb fmt "BIOES"), (String.eqb fmt "BIO"); reflexivity.
Qed.

(** A prefixed variant determines its base label, and is never "O". *)
Lemma expanded_tags_inv (fmt l l' t : string) :
  In t (expanded_tags fmt l) -> In t (expanded_tags fmt l') -> l = l'.
Proof.
  unfold expanded_tags.
  destruct (String.eqb fmt "BIOES"), (String.eqb fmt "BIO"); simpl;
    intuition (subst; try discriminate; try congruence).
Qed.

Lemma expanded_tags_not_O (fmt l : string) : ~ In "O" (expanded_tags fmt l).
Proof.
  unfold expanded_tags.
  destruct (String.eqb fmt "BIOES"), (String.eqb fmt "BIO"); simpl;
    intuition discriminate.
Qed.

Lemma expanded_tags_NoDup (fmt l : string) :
  supported fmt -> NoDup (expanded_tags fmt l).
Proof.
  intros [-> | ->]; unfold expanded_tags; simpl;
    repeat constructor; simpl; intuition discriminate.
Qed.

Lemma expanded_tags_length (fmt l : string) :
  List.length (expanded_tags fmt l)
  = if String.eqb fmt "BIOES" then 4
    else if String.eqb fmt "BIO" then 2 else 0.
Proof.
  unfold expanded_tags.
  destruct (String.eqb fmt "BIOES") eqn:E.
  - apply String.eqb_eq in E. subst. reflexivity.
  - destruct (String.eqb fmt "BIO"); reflexivity.
Qed.

Lemma In_expanded_items (fmt t : string) (done : list string) :
  In t (expanded_items fmt done) ->
  t = "O" \/ exists l, In l done /\ In t (expanded_tags fmt l).
Proof.
  destruct done as [| l0 done]; [intros [] |].
  unfold expanded_items. intros [H | H]; [now left | right].
  apply in_flat_map in H. exact H.
Qed.

(** One turn of the loop over the base labels. *)
Lemma expand_label_step (fmt : string) (d : Dictionary)
    (done : list string) (l : string) :
  supported fmt -> l <> unk -> ~ In l done ->
  idx2item d = expanded_items fmt done ->
  idx2item (expand_label fmt d l) = expanded_items fmt (done ++ [l]).
Proof.
  intros Hfmt Hne Hnew Hd.
  rewrite expand_label_tags by assumption.
  assert (HO : idx2item (add_item d "O")
               = match done with [] => ["O"] | _ => expanded_items fmt done end).
  { destruct done as [| l0 done].
    - rewrite add_item_fresh; rewrite Hd; simpl; tauto.
    - rewrite add_item_present; [assumption |]. rewrite Hd. now left. }
  rewrite add_items_fresh.
  - rewrite HO. destruct done as [| l0 done]; simpl.
    + now rewrite app_nil_r.
    + rewrite flat_map_app. simpl. rewrite app_nil_r.
      now rewrite <- app_assoc.
  - now apply expanded_tags_NoDup.
  - intros t Ht Hin. rewrite HO in Hin.
    assert (Hcases : t = "O" \/
                     exists l', In l' done /\ In t (expanded_tags fmt l')).
    { destruct done as [| l0 done].
      - destruct Hin as [<- | []]. now left.
      - now apply In_expanded_items. }
    destruct Hcases as [-> | [l' [Hl' Ht']]].
    + now apply expanded_tags_not_O in Ht.
    + assert (l = l') by (eapply expanded_tags_inv; eassumption).
      subst. contradiction.
Qed.

Lemma expand_label_unk (fmt : string) (d : Dictionary) :
  expand_label fmt d unk = d.
Proof. reflexivity. Qed.

(** The whole loop: the expanded dictionary lists "O" and then the
    variants of each base label, in the order of the input dictionary. *)
Lemma expand_all (fmt : string) (ls : list string) :
  supported fmt ->
  forall (d : Dictionary) (done : list string),
  NoDup (done ++ ls) ->
  idx2item d = expanded_items fmt done ->
  idx2item (fold_left (expand_label fmt) ls d)
  = expanded_items fmt
      (done ++ filter (fun l => negb (String.eqb l unk)) ls).
Proof.
  intros Hfmt. induction ls as [| l ls IH]; intros d done Hnd Hd; simpl.
  - now rewrite app_nil_r.
  - destruct (String.eqb l unk) eqn:E; simpl.
    + apply String.eqb_eq in E. subst l. rewrite expand_label_unk.
      apply IH; [| assumption].
      apply NoDup_remove_1 in Hnd. exact Hnd.
    + apply String.eqb_neq in E.
      replace (done ++ l :: filter (fun l0 => negb (String.eqb l0 unk)) ls)%list
        with ((done ++ [l]) ++ filter (fun l0 => negb (String.eqb l0 unk)) ls)%list
        by (now rewrite <- app_assoc).
      apply IH.
      * now rewrite <- app_assoc.
      * apply expand_label_step; trivial.
        apply NoDup_remove_2 in Hnd. intros Hin. apply Hnd.
        apply in_or_app. now left.
Qed.

Lemma flat_map_tags_length (fmt : string) (ls : list string) :
  List.length (flat_map (expanded_tags fmt) ls)
  = (if String.eqb fmt "BIOES" then 4
     else if String.eqb fmt "BIO" then 2 else 0) * List.length ls.
Proof.
  induction ls as [| l ls IH]; simpl.
  - lia.
  - rewrite length_app, IH, expanded_tags_length. lia.
Qed.

Lemma expanded_items_length (fmt : string) (labels : list string) :
  labels <> [] ->
  List.length (expanded_items fmt labels)
  = 1 + (if String.eqb fmt "BIOES" then 4
         else if String.eqb fmt "BIO" then 2 else 0) * List.length labels.
Proof.
  intros Hne. destruct labels as [| l0 labels]; [congruence |].
  unfold expanded_items.
  change (List.length ("O" :: flat_map (expanded_tags fmt) (l0 :: labels)))
    with (S (List.length (flat_map (expanded_tags fmt) (l0 :: labels)))).
  now rewrite flat_map_tags_length.
Qed.

(** What construction yields for a span-level dictionary. *)
Lemma init_span_level (d : Dictionary) (ty fmt : string) :
  supported fmt -> span_labels d = true -> NoDup (get_items d) ->
  exists m,
    _init_verbalizers_and_tag_dictionary ty fmt d = Ok m
    /\ idx2item (label_dictionary m) = expanded_items fmt (base_labels d)
    /\ tagset_size m = List.length (expanded_items fmt (base_labels d))
    /\ idx2verbalized_label m
       = verbalize_items (item2idx_items (label_dictionary m))
    /\ tag_format m = fmt /\ tag_type m = ty /\ predict_spans m = true.
Proof.
  intros Hfmt Hspan Hnd.
  unfold _init_verbalizers_and_tag_dictionary. rewrite Hspan.
  assert (Hmem : mem fmt ["BIOES"; "BIO"] = true).
  { apply mem_In. destruct Hfmt as [-> | ->]; simpl; tauto. }
  rewrite Hmem. cbn [bind].
  eexists. split; [reflexivity |]. cbn.
  assert (H : idx2item (fold_left (expand_label fmt) (get_items d)
                          (Dictionary_new false))
              = expanded_items fmt (base_labels d)).
  { apply (expand_all fmt (get_items d) Hfmt (Dictionary_new false) []);
      [assumption | reflexivity]. }
  unfold Dictionary_len. rewrite H. repeat split; reflexivity.
Qed.

(** C3 (as amended): for a span-level tag dictionary with [n >= 1]
    distinct base labels, the unknown sentinel not counted, construction
    succeeds and the expanded label dictionary has exactly [1 + 4 * n]
    entries under BIOES and [1 + 2 * n] entries under BIO. *)
Theorem expanded_dictionary_size (d : Dictionary) (ty fmt : string) :
  span_labels d = true -> NoDup (get_items d) -> base_labels d <> [] ->
  (upper fmt = "BIOES" ->
   exists m, DualEncoder_init d ty fmt = Ok m
             /\ Dictionary_len (label_dictionary m)
                = 1 + 4 * List.length (base_labels d))
  /\ (upper fmt = "BIO" ->
      exists m, DualEncoder_init d ty fmt = Ok m
                /\ Dictionary_len (label_dictionary m)
                   = 1 + 2 * List.length (base_labels d)).
Proof.
  intros Hspan Hnd Hne. unfold DualEncoder_init. split; intros Hfmt;
    rewrite Hfmt.
  - destruct (init_span_level d ty "BIOES") as [m [Hm [Hitems _]]];
      [now right | assumption | assumption |].
    exists m. split; [exact Hm |].
    unfold Dictionary_len. rewrite Hitems.
    now rewrite expanded_items_length.
  - destruct (init_span_level d ty "BIO") as [m [Hm [Hitems _]]];
      [now left | assumption | assumption |].
    exists m. split; [exact Hm |].
    unfold Dictionary_len. rewrite Hitems.
    now rewrite expanded_items_length.
Qed.

Lemma expanded_dictionary_size_witness :
  (upper "bioes" = "BIOES" ->
   exists m,
     DualEncoder_init (mkDictionary ["<unk>"; "person"; "location"] true true)
       "ner" "bioes" = Ok m
     /\ Dictionary_len (label_dictionary m)
        = 1 + 4 * List.length
                    (base_labels
                       (mkDictionary ["<unk>"; "person"; "location"] true true)))
  /\ (upper "bioes" = "BIO" ->
      exists m,
        DualEncoder_init (mkDictionary ["<unk>"; "person"; "location"] true true)
          "ner" "bioes" = Ok m
        /\ Dictionary_len (label_dictionary m)
           = 1 + 2 * List.length
                       (base_labels
                          (mkDictionary ["<unk>"; "person"; "location"] true true))).
Proof.
  apply (expanded_dictionary_size
           (mkDictionary ["<unk>"; "person"; "location"] true true)
           "ner" "bioes").
  - reflexivity.
  - unfold get_items; simpl.
    repeat constructor; simpl; intuition discriminate.
  - vm_compute. discriminate.
Defined.

(** C3, as stated, fails for a span-level dictionary without base labels:
    the loop that adds "O" never runs, and the expanded dictionary has no
    entry instead of one. *)
Lemma expanded_dictionary_size_no_labels :
  span_labels (mkDictionary ["<unk>"] true true) = true
  /\ List.length (base_labels (mkDictionary ["<unk>"] true true)) = 0
  /\ exists m,
       DualEncoder_init (mkDictionary ["<unk>"] true true) "ner" "BIOES"
       = Ok m
       /\ Dictionary_len (label_dictionary m) = 0
       /\ Dictionary_len (label_dictionary m)
          <> 1 + 4 * List.length
                       (base_labels (mkDictionary ["<unk>"] true true)).
Proof.
  split; [reflexivity | split; [reflexivity |]].
  eexists. split; [reflexivity |]. split; [reflexivity | discriminate].
Qed.

(** C5 (as amended): a format string that is neither BIO nor BIOES after
    upper-casing makes construction fail with an assertion error when the
    tag dictionary is span-level; for a flat tag dictionary the format is
    not looked at and construction succeeds, with the input dictionary as
    label dictionary.  The statement holds for every upper-casing
    function [normalise], Python's [str.upper] among them. *)
Theorem unsupported_format (normalise : string -> string) (d : Dictionary)
    (ty fmt : string) :
  normalise fmt <> "BIO" -> normalise fmt <> "BIOES" ->
  (span_labels d = true ->
   DualEncoder_init_with normalise d ty fmt = Raise AssertionError)
  /\ (span_labels d = false ->
      exists m, DualEncoder_init_with normalise d ty fmt = Ok m
                /\ label_dictionary m = d
                /\ tag_format m = normalise fmt).
Proof.
  intros Hbio Hbioes.
  unfold DualEncoder_init_with, _init_verbalizers_and_tag_dictionary.
  split; intros Hspan; rewrite Hspan.
  - assert (Hmem : mem (normalise fmt) ["BIOES"; "BIO"] = false).
    { apply mem_not_In. simpl. intuition congruence. }
    now rewrite Hmem.
  - cbn [bind]. eexists. split; [reflexivity |]. split; reflexivity.
Qed.

Lemma unsupported_format_witness :
  (span_labels (mkDictionary ["<unk>"; "person"] true true) = true ->
   DualEncoder_init_with upper (mkDictionary ["<unk>"; "person"] true true)
     "ner" "iob"
   = Raise AssertionError)
  /\ (span_labels (mkDictionary ["<unk>"; "person"] true true) = false ->
      exists m,
        DualEncoder_init_with upper
          (mkDictionary ["<unk>"; "person"] true true) "ner" "iob" = Ok m
        /\ label_dictionary m = mkDictionary ["<unk>"; "person"] true true
        /\ tag_format m = upper "iob").
Proof.
  apply (unsupported_format upper
           (mkDictionary ["<unk>"; "person"] true true) "ner" "iob");
    vm_compute; discriminate.
Defined.

(** C5, as stated, fails for a flat tag dictionary: the assertion on the
    format sits in the span-level branch only. *)
Lemma unsupported_format_flat_accepted :
  upper "iob" <> "BIO" /\ upper "iob" <> "BIOES"
  /\ exists m,
       DualEncoder_init (mkDictionary ["O"; "NOUN"; "VERB"] false false)
         "pos" "iob" = Ok m.
Proof.
  split; [vm_compute; discriminate |].
  split; [vm_compute; discriminate |].
  eexists. reflexivity.
Qed.

Lemma add_item_mono (d : Dictionary) (x y : string) :
  In x (idx2item d) -> In x (idx2item (add_item d y)).
Proof.
  intros H. unfold add_item. destruct (mem y (idx2item d)); simpl; trivial.
  apply in_or_app. now left.
Qed.

Lemma add_item_In (d : Dictionary) (x : string) :
  In x (idx2item (add_item d x)).
Proof.
  unfold add_item. destruct (mem x (idx2item d)) eqn:E; simpl.
  - now apply mem_In.
  - apply in_or_app. right. now left.
Qed.

Lemma expand_label_mono (fmt : string) (d : Dictionary) (x l : string) :
  In x (idx2item d) -> In x (idx2item (expand_label fmt d l)).
Proof.
  intros H. unfold expand_label.
  destruct (String.eqb l unk); trivial.
  destruct (String.eqb fmt "BIOES"), (String.eqb fmt "BIO");
    repeat apply add_item_mono; assumption.
Qed.

Lemma expand_label_O (fmt : string) (d : Dictionary) (l : string) :
  l <> unk -> In "O" (idx2item (expand_label fmt d l)).
Proof.
  intros H. unfold expand_label. apply String.eqb_neq in H. rewrite H.
  destruct (String.eqb fmt "BIOES"), (String.eqb fmt "BIO");
    repeat first [apply add_item_In | apply add_item_mono].
Qed.

Lemma fold_expand_mono (fmt x : string) (ls : list string) :
  forall d, In x (idx2item d) ->
            In x (idx2item (fold_left (expand_label fmt) ls d)).
Proof.
  induction ls as [| l ls IH]; intros d H; simpl; trivial.
  apply IH. now apply expand_label_mono.
Qed.

Lemma fold_expand_O (fmt : string) (ls : list string) :
  forall d, filter (fun l => negb (String.eqb l unk)) ls <> [] ->
            In "O" (idx2item (fold_left (expand_label fmt) ls d)).
Proof.
  induction ls as [| l ls IH]; intros d H; simpl in *; [congruence |].
  destruct (String.eqb l unk) eqn:E; simpl in H.
  - now apply IH.
  - apply fold_expand_mono. apply expand_label_O.
    now apply String.eqb_neq.
Qed.

(** C6 (as amended): when construction accepts a span-level tag dictionary
    that has at least one base label besides the unknown sentinel, the
    expanded label dictionary contains "O"; a flat tag dictionary is taken
    over as it is, so the label dictionary contains "O" exactly when the
    input does. *)
Theorem label_dictionary_has_O (d : Dictionary) (ty fmt : string)
    (m : DualEncoder) :
  DualEncoder_init d ty fmt = Ok m ->
  (span_labels d = true -> base_labels d <> [] ->
   contains_item (label_dictionary m) "O")
  /\ (span_labels d = false ->
      label_dictionary m = d
      /\ (contains_item (label_dictionary m) "O" <-> contains_item d "O")).
Proof.
  unfold DualEncoder_init, _init_verbalizers_and_tag_dictionary.
  intros Hinit. split.
  - intros Hspan Hne. rewrite Hspan in Hinit.
    destruct (mem (upper fmt) ["BIOES"; "BIO"]); [| discriminate].
    cbn [bind] in Hinit. injection Hinit as <-. cbn.
    unfold contains_item. now apply fold_expand_O.
  - intros Hflat. rewrite Hflat in Hinit. cbn [bind] in Hinit.
    injection Hinit as <-. cbn. split; [reflexivity | tauto].
Qed.

Lemma label_dictionary_has_O_witness :
  (span_labels (mkDictionary ["<unk>"; "person"] true true) = true ->
   base_labels (mkDictionary ["<unk>"; "person"] true true) <> [] ->
   contains_item
     (label_dictionary
        (mkDualEncoder "ner" "BIO"
           (mkDictionary ["O"; "B-person"; "I-person"] false false) true
           [(0, "other"); (1, "begin person"); (2, "inside person")] 3))
     "O")
  /\ (span_labels (mkDictionary ["<unk>"; "person"] true true) = false ->
      label_dictionary
        (mkDualEncoder "ner" "BIO"
           (mkDictionary ["O"; "B-person"; "I-person"] false false) true
           [(0, "other"); (1, "begin person"); (2, "inside person")] 3)
      = mkDictionary ["<unk>"; "person"] true true
      /\ (contains_item
            (label_dictionary
               (mkDualEncoder "ner" "BIO"
                  (mkDictionary ["O"; "B-person"; "I-person"] false false) true
                  [(0, "other"); (1, "begin person"); (2, "inside person")] 3))
            "O"
          <-> contains_item (mkDictionary ["<unk>"; "person"] true true) "O")).
Proof.
  apply (label_dictionary_has_O (mkDictionary ["<unk>"; "person"] true true)
           "ner" "bio").
  reflexivity.
Defined.

(** C6, as stated, fails for a flat tag dictionary without "O": it is
    accepted and becomes the label dictionary unchanged. *)
Lemma label_dictionary_flat_without_O :
  exists m,
    DualEncoder_init (mkDictionary ["NOUN"; "VERB"] false false) "pos" "BIO"
    = Ok m
    /\ ~ contains_item (label_dictionary m) "O".
Proof.
  eexists. split; [reflexivity |].
  unfold contains_item. simpl. intuition discriminate.
Qed.

(** ** Verbalized labels *)

(** C2: the code does not give the round trip.  A base label with a hyphen
    is cut at its first hyphen when the phrase is built, so the label read
    back from the phrase differs from it, and two labels that agree up to
    their first hyphen get one phrase; under BIOES the "S-" and "E-" tags
    of a label get no phrase at all. *)
Theorem verbalize_roundtrip_fails :
  (In "B-creative-work" (expanded_tags "BIO" "creative-work")
   /\ verbalize "B-creative-work" = Some "begin creative"
   /\ base_label_of_phrase "begin creative" = Some "creative"
   /\ "creative" <> "creative-work")
  /\ (verbalize "B-location-GPE" = verbalize "B-location-other")
  /\ (In "S-person" (expanded_tags "BIOES" "person")
      /\ In "E-person" (expanded_tags "BIOES" "person")
      /\ verbalize "S-person" = None /\ verbalize "E-person" = None)
  /\ (exists m,
        DualEncoder_init (mkDictionary ["creative-work"] false true)
          "ner" "BIO" = Ok m
        /\ idx2verbalized_label m
           = [(0, "other"); (1, "begin creative"); (2, "inside creative")])
  /\ (exists m,
        DualEncoder_init (mkDictionary ["person"] false true)
          "ner" "BIOES" = Ok m
        /\ idx2item (label_dictionary m)
           = ["O"; "S-person"; "B-person"; "E-person"; "I-person"]
        /\ idx2verbalized_label m
           = [(0, "other"); (2, "begin person"); (4, "inside person")]).
Proof.
  repeat split; try reflexivity; try discriminate.
  - simpl. tauto.
  - simpl. tauto.
  - simpl. tauto.
  - eexists. split; reflexivity.
  - eexists. repeat split; reflexivity.
Qed.

Lemma split_hyphen_free (s : string) :
  hyphen_free s = true -> split "-" s = [s].
Proof.
  induction s as [| c s IH]; simpl; [reflexivity |].
  intros H. apply andb_prop in H as [Hc Hs].
  apply negb_true_iff in Hc. rewrite Hc. now rewrite IH.
Qed.

Lemma prefix_empty (s : string) : String.prefix "" s = true.
Proof. destruct s; reflexivity. Qed.

Lemma base_label_of_begin (l : string) :
  base_label_of_phrase ("begin " ++ l) = Some l.
Proof. reflexivity. Qed.

Lemma base_label_of_inside (l : string) :
  base_label_of_phrase ("inside " ++ l) = Some l.
Proof. reflexivity. Qed.

(** Where the round trip does hold: the "B-" and "I-" tags of a label
    without a hyphen. *)
Lemma verbalize_roundtrip_hyphen_free (l : string) :
  hyphen_free l = true ->
  (exists phrase, verbalize ("B-" ++ l) = Some phrase
                  /\ base_label_of_phrase phrase = Some l)
  /\ (exists phrase, verbalize ("I-" ++ l) = Some phrase
                     /\ base_label_of_phrase phrase = Some l).
Proof.
  intros H. unfold verbalize, startswith. simpl.
  rewrite (split_hyphen_free l H), prefix_empty. simpl.
  split; eexists; (split; [reflexivity |]).
  - apply base_label_of_begin.
  - apply base_label_of_inside.
Qed.

(** ** The corpus selector *)

(** C9: a corpus name outside wnut_17, conll_03, ontonotes and fewnerd
    makes [get_corpus] raise the generic exception; no corpus comes back. *)
Theorem get_corpus_unknown (ds : Datasets) (corpus granularity : string) :
  corpus <> "wnut_17" -> corpus <> "conll_03" ->
  corpus <> "ontonotes" -> corpus <> "fewnerd" ->
  get_corpus ds corpus granularity = Raise (Exception "no valid corpus.").
Proof.
  intros H1 H2 H3 H4. unfold get_corpus.
  apply String.eqb_neq in H1, H2, H3, H4.
  now rewrite H1, H2, H3, H4.
Qed.

Lemma get_corpus_unknown_witness :
  get_corpus (listed_datasets []) "conll_2000" ""
  = Raise (Exception "no valid corpus.").
Proof.
  apply (get_corpus_unknown (listed_datasets []) "conll_2000" "");
    discriminate.
Defined.

(** C10: for the corpus name fewnerd and a granularity that is neither
    fine nor coarse, [get_corpus] raises nothing and returns [None]. *)
Theorem get_corpus_fewnerd_other_granularity (ds : Datasets)
    (granularity : string) :
  granularity <> "fine" -> granularity <> "coarse" ->
  get_corpus ds "fewnerd" granularity = Ok None.
Proof.
  intros H1 H2. unfold get_corpus. simpl.
  apply String.eqb_neq in H1, H2. now rewrite H1, H2.
Qed.

Lemma get_corpus_fewnerd_other_granularity_witness :
  get_corpus (listed_datasets []) "fewnerd" "" = Ok None.
Proof.
  apply (get_corpus_fewnerd_other_granularity (listed_datasets []) "");
    discriminate.
Defined.

(** ** The scorer *)

(** C7: on an empty list of sentences [forward_loss] returns the zero
    loss and the token count 0, and raises nothing. *)
Theorem forward_loss_empty (R : Type) (fw : Framework R) (m : DualEncoder) :
  forward_loss fw m [] = Ok (zero fw, 0).
Proof. reflexivity. Qed.

Lemma stack_same_length (R : Type) (rows : list (list R)) (dim : nat) :
  rows <> [] -> (forall r, In r rows -> List.length r = dim) ->
  stack rows = Ok rows.
Proof.
  intros Hne Hdim. destruct rows as [| r rest]; [congruence |].
  unfold stack.
  assert (H : forallb (fun r' => (List.length r' =? List.length r)%nat) rest
              = true).
  { apply forallb_forall. intros r' Hr'. apply Nat.eqb_eq.
    rewrite (Hdim r') by now right. symmetry. apply Hdim. now left. }
  now rewrite H.
Qed.

Lemma tokens_in_batch (R : Type) (f : Sentence R -> Token R -> list R)
    (sentences : list (Sentence R)) :
  List.length (flat_map (fun s => map (f s) (tokens s)) sentences)
  = list_sum (map Sentence_len sentences).
Proof.
  induction sentences as [| s ss IH]; simpl; [reflexivity |].
  rewrite length_app, length_map, IH. reflexivity.
Qed.

(** The shape of the logits: one row per token of the batch, one column
    per verbalized label. *)
Lemma forward_logits_shape (R : Type) (fw : Framework R) (m : DualEncoder)
    (sentences : list (Sentence R)) (dim : nat) :
  (forall s t, List.length (token_encoder fw s t) = dim) ->
  (forall phrase, List.length (label_encoder fw phrase) = dim) ->
  list_sum (map Sentence_len sentences) <> 0 ->
  idx2verbalized_label m <> [] ->
  exists logits,
    forward_logits fw m sentences = Ok logits
    /\ List.length logits = list_sum (map Sentence_len sentences)
    /\ Forall (fun row => List.length row
                          = List.length (idx2verbalized_label m)) logits.
Proof.
  intros Htok Hlab Hne Hverb. unfold forward_logits.
  set (toks := flat_map (fun s => map (token_encoder fw s) (tokens s))
                 sentences).
  set (labs := map (label_encoder fw) (map snd (idx2verbalized_label m))).
  assert (Htoks : List.length toks = list_sum (map Sentence_len sentences))
    by apply tokens_in_batch.
  assert (Hlabs : List.length labs = List.length (idx2verbalized_label m))
    by (unfold labs; now rewrite !length_map).
  assert (Htdim : forall r, In r toks -> List.length r = dim).
  { intros r Hr. unfold toks in Hr. apply in_flat_map in Hr as [s [_ Hr]].
    apply in_map_iff in Hr as [t [<- _]]. apply Htok. }
  assert (Hldim : forall r, In r labs -> List.length r = dim).
  { intros r Hr. unfold labs in Hr. apply in_map_iff in Hr as [p [<- _]].
    apply Hlab. }
  rewrite (stack_same_length R toks dim); trivial;
    [| intros E; rewrite E in Htoks; simpl in Htoks; congruence].
  cbn [bind].
  rewrite (stack_same_length R labs dim); trivial;
    [| intros E; rewrite E in Hlabs; simpl in Hlabs;
       destruct (idx2verbalized_label m); simpl in *; congruence].
  cbn [bind]. unfold mm_transposed.
  assert (Hhd : List.length (hd [] toks) = List.length (hd [] labs)).
  { destruct toks as [| t0 toks']; [simpl in Htoks; congruence |].
    destruct labs as [| l0 labs'];
      [destruct (idx2verbalized_label m); simpl in *; congruence |].
    simpl. rewrite (Htdim t0), (Hldim l0); simpl; tauto. }
  apply Nat.eqb_eq in Hhd. rewrite Hhd.
  eexists. split; [reflexivity |]. split.
  - now rewrite length_map.
  - apply Forall_forall. intros row Hrow.
    apply in_map_iff in Hrow as [u [<- _]]. now rewrite length_map.
Qed.

Lemma verbalize_items_length (items : list string) : forall k,
  List.length (verbalize_items (combine items (seq k (List.length items))))
  = List.length (filter verbalized items).
Proof.
  induction items as [| t items IH]; intros k; simpl; [reflexivity |].
  unfold verbalized at 1. destruct (verbalize t); simpl; now rewrite IH.
Qed.

Lemma verbalized_tags (l : string) :
  verbalized "O" = true /\ verbalized ("B-" ++ l) = true
  /\ verbalized ("I-" ++ l) = true /\ verbalized ("S-" ++ l) = false
  /\ verbalized ("E-" ++ l) = false.
Proof.
  unfold verbalized, verbalize, startswith. simpl.
  rewrite prefix_empty. repeat split; reflexivity.
Qed.

(** Under either format two of the variants of a label have a phrase. *)
Lemma verbalized_expanded_tags (fmt l : string) :
  supported fmt ->
  List.length (filter verbalized (expanded_tags fmt l)) = 2.
Proof.
  destruct (verbalized_tags l) as [_ [HB [HI [HS HE]]]].
  intros [-> | ->]; unfold expanded_tags; simpl;
    fold (String.append "B-" l); fold (String.append "I-" l);
    fold (String.append "S-" l); fold (String.append "E-" l);
    change (String "B" (String "-" l)) with ("B-" ++ l);
    change (String "I" (String "-" l)) with ("I-" ++ l);
    try change (String "S" (String "-" l)) with ("S-" ++ l);
    try change (String "E" (String "-" l)) with ("E-" ++ l);
    rewrite ?HB, ?HI, ?HS, ?HE; reflexivity.
Qed.

Lemma verbalized_flat_map_tags (fmt : string) (ls : list string) :
  supported fmt ->
  List.length (filter verbalized (flat_map (expanded_tags fmt) ls))
  = 2 * List.length ls.
Proof.
  intros Hfmt. induction ls as [| l ls IH]; [reflexivity |].
  cbn [flat_map]. rewrite filter_app, length_app, IH.
  rewrite verbalized_expanded_tags by assumption. simpl. lia.
Qed.

Lemma verbalized_expanded_items (fmt : string) (labels : list string) :
  supported fmt -> labels <> [] ->
  List.length (filter verbalized (expanded_items fmt labels))
  = 1 + 2 * List.length labels.
Proof.
  intros Hfmt Hne. destruct labels as [| l0 labels]; [congruence |].
  unfold expanded_items.
  change (filter verbalized ("O" :: flat_map (expanded_tags fmt) (l0 :: labels)))
    with ("O" :: filter verbalized (flat_map (expanded_tags fmt) (l0 :: labels))).
  change (List.length
            ("O" :: filter verbalized
                      (flat_map (expanded_tags fmt) (l0 :: labels))))
    with (S (List.length
               (filter verbalized
                  (flat_map (expanded_tags fmt) (l0 :: labels))))).
  now rewrite verbalized_flat_map_tags.
Qed.

(** The logits of a model built from a span-level dictionary: as many
    rows as the batch has tokens and [1 + 2 * n] columns under either
    format, next to a tag set of [1 + k * n] entries. *)
Lemma forward_logits_span_level (R : Type) (fw : Framework R)
    (d : Dictionary) (ty fmt : string) (sentences : list (Sentence R))
    (dim : nat) :
  supported fmt ->
  span_labels d = true -> NoDup (get_items d) -> base_labels d <> [] ->
  (forall s t, List.length (token_encoder fw s t) = dim) ->
  (forall phrase, List.length (label_encoder fw phrase) = dim) ->
  list_sum (map Sentence_len sentences) <> 0 ->
  exists m logits,
    _init_verbalizers_and_tag_dictionary ty fmt d = Ok m
    /\ forward_logits fw m sentences = Ok logits
    /\ List.length logits = list_sum (map Sentence_len sentences)
    /\ Forall (fun row => List.length row
                          = 1 + 2 * List.length (base_labels d)) logits
    /\ tagset_size m
       = 1 + (if String.eqb fmt "BIOES" then 4
              else if String.eqb fmt "BIO" then 2 else 0)
             * List.length (base_labels d).
Proof.
  intros Hfmt Hspan Hnd Hbase Htok Hlab Hne.
  destruct (init_span_level d ty fmt Hfmt Hspan Hnd)
    as [m [Hm [Hitems [Hsize [Hverb _]]]]].
  assert (Hcols : List.length (idx2verbalized_label m)
                  = 1 + 2 * List.length (base_labels d)).
  { rewrite Hverb. unfold item2idx_items.
    rewrite verbalize_items_length, Hitems.
    now apply verbalized_expanded_items. }
  destruct (forward_logits_shape R fw m sentences dim Htok Hlab Hne)
    as [logits [Hlogits [Hrows Hrow]]].
  { intros E. rewrite E in Hcols. simpl in Hcols. lia. }
  exists m, logits. repeat split; trivial.
  - now rewrite <- Hcols.
  - rewrite Hsize. now apply expanded_items_length.
Qed.

(** C1: under BIOES the logits do not have one column per entry of the
    expanded label dictionary.  For a span-level dictionary with [n >= 1]
    base labels the "S-" and "E-" tags get no verbalized label, so the
    logits have one row per token but only [1 + 2 * n] columns, while the
    tag set has [1 + 4 * n] entries. *)
Theorem forward_logits_BIOES_columns (R : Type) (fw : Framework R)
    (d : Dictionary) (ty fmt : string) (sentences : list (Sentence R))
    (dim : nat) :
  upper fmt = "BIOES" ->
  span_labels d = true -> NoDup (get_items d) -> base_labels d <> [] ->
  (forall s t, List.length (token_encoder fw s t) = dim) ->
  (forall phrase, List.length (label_encoder fw phrase) = dim) ->
  list_sum (map Sentence_len sentences) <> 0 ->
  exists m logits,
    DualEncoder_init d ty fmt = Ok m
    /\ forward_logits fw m sentences = Ok logits
    /\ List.length logits = list_sum (map Sentence_len sentences)
    /\ tagset_size m = 1 + 4 * List.length (base_labels d)
    /\ Forall (fun row => List.length row
                          = 1 + 2 * List.length (base_labels d)
                          /\ List.length row <> tagset_size m) logits.
Proof.
  intros Hfmt Hspan Hnd Hbase Htok Hlab Hne.
  unfold DualEncoder_init. rewrite Hfmt.
  destruct (forward_logits_span_level R fw d ty "BIOES" sentences dim)
    as [m [logits [Hm [Hl [Hrows [Hcols Hsize]]]]]]; trivial;
    try (now right).
  change (tagset_size m = 1 + 4 * List.length (base_labels d)) in Hsize.
  exists m, logits.
  split; [exact Hm |]. split; [exact Hl |]. split; [exact Hrows |].
  split; [exact Hsize |].
  apply Forall_forall. intros row Hrow.
  rewrite Forall_forall in Hcols. specialize (Hcols row Hrow).
  split; [assumption |].
  assert (List.length (base_labels d) <> 0)
    by (destruct (base_labels d); simpl; congruence).
  lia.
Qed.

Lemma forward_logits_BIOES_columns_witness :
  let d := mkDictionary ["<unk>"; "person"] true true in
  let sentences := [mkSentence [mkToken 1 "Berlin" []] []] in
  exists m logits,
    DualEncoder_init d "ner" "BIOES" = Ok m
    /\ forward_logits constant_framework m sentences = Ok logits
    /\ List.length logits = list_sum (map Sentence_len sentences)
    /\ tagset_size m = 1 + 4 * List.length (base_labels d)
    /\ Forall (fun row => List.length row
                          = 1 + 2 * List.length (base_labels d)
                          /\ List.length row <> tagset_size m) logits.
Proof.
  apply (forward_logits_BIOES_columns Z constant_framework
           (mkDictionary ["<unk>"; "person"] true true) "ner" "BIOES"
           [mkSentence [mkToken 1%Z "Berlin" []] []] 2).
  - reflexivity.
  - reflexivity.
  - unfold get_items; simpl.
    repeat constructor; simpl; intuition discriminate.
  - vm_compute. discriminate.
  - intros s t. reflexivity.
  - intros phrase. reflexivity.
  - vm_compute. discriminate.
Defined.

(** The BIO half of the shape claim: one row per token and one column per
    entry of the expanded label dictionary. *)
Lemma forward_logits_BIO_shape (R : Type) (fw : Framework R)
    (d : Dictionary) (ty fmt : string) (sentences : list (Sentence R))
    (dim : nat) :
  upper fmt = "BIO" ->
  span_labels d = true -> NoDup (get_items d) -> base_labels d <> [] ->
  (forall s t, List.length (token_encoder fw s t) = dim) ->
  (forall phrase, List.length (label_encoder fw phrase) = dim) ->
  list_sum (map Sentence_len sentences) <> 0 ->
  exists m logits,
    DualEncoder_init d ty fmt = Ok m
    /\ forward_logits fw m sentences = Ok logits
    /\ List.length logits = list_sum (map Sentence_len sentences)
    /\ Forall (fun row => List.length row = tagset_size m) logits.
Proof.
  intros Hfmt Hspan Hnd Hbase Htok Hlab Hne.
  unfold DualEncoder_init. rewrite Hfmt.
  destruct (forward_logits_span_level R fw d ty "BIO" sentences dim)
    as [m [logits [Hm [Hl [Hrows [Hcols Hsize]]]]]]; trivial;
    try (now left).
  change (tagset_size m = 1 + 2 * List.length (base_labels d)) in Hsize.
  exists m, logits.
  split; [exact Hm |]. split; [exact Hl |]. split; [exact Hrows |].
  rewrite Hsize. exact Hcols.
Qed.

(** The failing case run on the smallest input: one label, one token. *)
Example forward_logits_BIOES_person :
  exists m,
    DualEncoder_init (mkDictionary ["person"] false true) "ner" "BIOES" = Ok m
    /\ tagset_size m = 5
    /\ forward_logits constant_framework m
         [mkSentence [mkToken 1 "Berlin" []] []]
       = Ok [[11; 11; 11]%Z].
Proof. eexists. repeat split; reflexivity. Qed.

(** ** Prediction *)

(** The labelling loop of the token-level branch does what its comment
    says: a token gets the predicted tag as a new label unless that tag
    is "O" or "_", in which case the token is left as it is. *)
Lemma label_tokens_spec (R : Type) (label_name : string) :
  forall (toks : list (Token R)) (preds : list (string * R)) (i : nat)
         (t : Token R) (tag : string) (score : R),
  nth_error toks i = Some t -> nth_error preds i = Some (tag, score) ->
  nth_error (label_tokens label_name toks preds) i
  = Some (if mem tag ["O"; "_"] then t
          else Token_add_label t label_name tag score).
Proof.
  induction toks as [| t0 toks IH]; intros preds i t tag score Ht Hp.
  - destruct i; discriminate.
  - destruct preds as [| p preds]; [destruct i; discriminate |].
    destruct i as [| i]; simpl in *.
    + injection Ht as <-. injection Hp as ->. reflexivity.
    + now apply IH.
Qed.

Lemma label_tokens_length (R : Type) (label_name : string) :
  forall (toks : list (Token R)) (preds : list (string * R)),
  List.length (label_tokens label_name toks preds) = List.length toks.
Proof.
  induction toks as [| t0 toks IH]; intros preds; [reflexivity |].
  destruct preds as [| p preds]; simpl; [reflexivity |]. now rewrite IH.
Qed.

Lemma predict_batch_raises (R : Type) (fw : Framework R) (m : DualEncoder)
    (label_name : string) (return_loss force : bool)
    (st : PredictState R) (batch : list (Sentence R)) :
  batch <> [] ->
  raises (predict_batch fw m label_name return_loss force st batch).
Proof.
  intros Hne. destruct st as [[done overall_loss] label_count].
  destruct batch as [| s batch]; [congruence |].
  unfold predict_batch.
  destruct (forward fw m (map (remove_labels label_name) (s :: batch))
              true false) as [out | e].
  - exists TypeError. reflexivity.
  - exists e. reflexivity.
Qed.

Lemma batches_nonempty (A : Type) (xs : list A) (batch_size : nat) :
  xs <> [] -> batch_size <> 0 ->
  exists b bs, b <> [] /\ batches (List.length xs) batch_size xs = b :: bs.
Proof.
  intros Hxs Hbs. destruct xs as [| x xs]; [congruence |].
  destruct batch_size as [| k]; [congruence |].
  simpl. eexists. eexists. split; [| reflexivity]. discriminate.
Qed.

(** C8: [predict] never gets to attach a label.  It calls [forward] with
    [inference=True, return_features=False], for which [forward] returns
    the loss alone, and unpacks the result into loss and predictions;
    with at least one sentence that has a token the call ends in an
    exception, whatever the mode. *)
Theorem predict_raises (R : Type) (fw : Framework R) (m : DualEncoder)
    (sentences : list (Sentence R)) (mini_batch_size : nat)
    (label_name : option string) (return_loss force : bool) :
  (exists s, In s sentences /\ tokens s <> []) ->
  mini_batch_size <> 0 ->
  raises (predict fw m sentences mini_batch_size label_name return_loss force).
Proof.
  intros [s [Hin Htok]] Hbs. unfold predict.
  destruct sentences as [| s0 ss]; [contradiction |].
  set (kept := filter (fun s => (0 <? Sentence_len s)%nat) (s0 :: ss)).
  assert (Hkept : kept <> []).
  { assert (In s kept).
    { apply filter_In. split; [assumption |].
      apply Nat.ltb_lt. unfold Sentence_len.
      destruct (tokens s); simpl; [congruence | lia]. }
    intros E. rewrite E in H. contradiction. }
  unfold DataLoader. apply Nat.eqb_neq in Hbs. rewrite Hbs.
  apply Nat.eqb_neq in Hbs. cbn [bind].
  destruct (batches_nonempty _ kept mini_batch_size Hkept Hbs)
    as [b [bs [Hb ->]]].
  cbn [for_each].
  destruct (predict_batch_raises R fw m
              (match label_name with Some n => n | None => tag_type m end)
              return_loss force ([], zero fw, 0) b Hb) as [e He].
  rewrite He. exists e. reflexivity.
Qed.

Lemma predict_raises_witness :
  raises
    (predict constant_framework token_model
       [mkSentence [mkToken 1 "Berlin" []] []] 32 None false true).
Proof.
  apply (predict_raises Z constant_framework token_model
           [mkSentence [mkToken 1%Z "Berlin" []] []] 32 None false true).
  - exists (mkSentence [mkToken 1%Z "Berlin" []] []).
    split; [simpl; tauto | discriminate].
  - discriminate.
Defined.

Example token_model_built :
  DualEncoder_init (mkDictionary ["B-person"; "I-person"; "O"] false false)
    "ner" "bio" = Ok token_model.
Proof. reflexivity. Qed.

(** The same call evaluated.  The scorer gets through, its logits favour
    the tag "B-person" for the token and the labelling loop would attach
    it, but the unpacking raises before that. *)
Example predict_Berlin :
  forward constant_framework token_model
    [mkSentence [mkToken 1 "Berlin" []] []] true false = Ok 0%Z
  /\ forward constant_framework token_model
       [mkSentence [mkToken 1 "Berlin" []] []] true true
     = Ok (0%Z, [[("B-person", 1%Z)]], [[11; 11; 11]%Z])
  /\ label_tokens "ner" [mkToken 1 "Berlin" []] [("B-person", 1%Z)]
     = [mkToken 1 "Berlin" [mkLabel "ner" "B-person" 1%Z]]
  /\ predict constant_framework token_model
       [mkSentence [mkToken 1 "Berlin" []] []] 32 None false true
     = Raise TypeError.
Proof. repeat split; reflexivity. Qed.

(** ** Gold labels *)

Ltac bool_cases :=
  repeat match goal with
         | |- context [(?a =? ?b)%Z] => destruct (Z.eqb_spec a b)
         | |- context [(?a <=? ?b)%Z] => destruct (Z.leb_spec a b)
         | |- context [(?a <? ?b)%Z] => destruct (Z.ltb_spec a b)
         | |- context [(?a =? ?b)%nat] => destruct (Nat.eqb_spec a b)
         end;
  simpl; try reflexivity; try lia.

Lemma upd_length (A : Type) (v : A) : forall (xs : list A) (i : nat),
  List.length (upd xs i v) = List.length xs.
Proof.
  induction xs as [| x xs IH]; intros i; [reflexivity |].
  destruct i; simpl; [reflexivity | now rewrite IH].
Qed.

Lemma upd_nth_error (A : Type) (v : A) : forall (xs : list A) (i p : nat),
  (i < List.length xs)%nat ->
  nth_error (upd xs i v) p
  = if (p =? i)%nat then Some v else nth_error xs p.
Proof.
  induction xs as [| x xs IH]; intros i p Hi; simpl in Hi; [lia |].
  destruct i as [| i], p as [| p]; simpl; try reflexivity.
  apply IH. lia.
Qed.

(** An assignment inside the list. *)
Lemma setitem_spec (A : Type) (xs : list A) (i : Z) (v : A) :
  (0 <= i < Z.of_nat (List.length xs))%Z ->
  exists xs',
    setitem xs i v = Ok xs'
    /\ List.length xs' = List.length xs
    /\ forall p, nth_error xs' p
                 = if (Z.of_nat p =? i)%Z then Some v else nth_error xs p.
Proof.
  intros Hi. unfold setitem.
  assert (H1 : (0 <=? i)%Z = true) by (apply Z.leb_le; lia).
  assert (H2 : (i <? Z.of_nat (List.length xs))%Z = true)
    by (apply Z.ltb_lt; lia).
  rewrite H1, H2. simpl. eexists. split; [reflexivity |]. split.
  - apply upd_length.
  - intros p. rewrite upd_nth_error by lia.
    destruct (Nat.eqb_spec p (Z.to_nat i)), (Z.eqb_spec (Z.of_nat p) i);
      try reflexivity; lia.
Qed.

Lemma range_nil (a b : Z) : (b <= a)%Z -> range a b = [].
Proof.
  intros H. unfold range. replace (Z.to_nat (b - a)) with 0%nat by lia.
  reflexivity.
Qed.

Lemma range_cons (a b : Z) : (a < b)%Z -> range a b = a :: range (a + 1) b.
Proof.
  intros H. unfold range.
  replace (Z.to_nat (b - a)) with (S (Z.to_nat (b - (a + 1)))) by lia.
  cbn [seq map]. f_equal; [lia |].
  rewrite <- seq_shift, map_map. apply map_ext. intros k. lia.
Qed.

(** The loop that writes one value over the positions [a .. b - 1]. *)
Lemma fill_range_spec (v : string) (n : nat) :
  forall (a b : Z) (xs : list string),
  Z.to_nat (b - a) = n ->
  (0 <= a)%Z -> (b <= Z.of_nat (List.length xs))%Z ->
  exists xs',
    for_each (fun ls i => setitem ls i v) (range a b) xs = Ok xs'
    /\ List.length xs' = List.length xs
    /\ forall p, nth_error xs' p
                 = if ((a <=? Z.of_nat p) && (Z.of_nat p <? b))%Z
                   then Some v else nth_error xs p.
Proof.
  induction n as [| n IH]; intros a b xs Hn Ha Hb.
  - rewrite range_nil by lia. exists xs. split; [reflexivity |].
    split; [reflexivity |]. intros p. bool_cases.
  - rewrite range_cons by lia. cbn [for_each].
    destruct (setitem_spec _ xs a v) as [xs1 [E1 [L1 N1]]]; [lia |].
    rewrite E1. cbn [bind].
    destruct (IH (a + 1)%Z b xs1) as [xs2 [E2 [L2 N2]]]; try lia.
    exists xs2. split; [exact E2 |]. split; [congruence |].
    intros p. rewrite N2, N1. bool_cases.
Qed.

Lemma covers_consecutive (R : Type) (p : nat) : forall (span : Span R) (z : Z),
  consecutive_from z span = true ->
  covers span p
  = ((z <=? Z.of_nat p + 1) && (Z.of_nat p + 1 <? z + Z.of_nat (List.length span)))%Z.
Proof.
  induction span as [| t rest IH]; intros z H.
  - simpl. bool_cases.
  - simpl in H. apply andb_prop in H as [Ht Hrest].
    apply Z.eqb_eq in Ht. unfold covers in *. cbn [existsb].
    rewrite (IH (z + 1)%Z Hrest), Ht.
    cbn [List.length]. bool_cases.
Qed.

Lemma last_consecutive (R : Type) : forall (rest : Span R) (t0 : Token R),
  consecutive_from (idx t0 + 1) rest = true ->
  idx (last rest t0) = (idx t0 + Z.of_nat (List.length rest))%Z.
Proof.
  induction rest as [| t rest IH]; intros t0 H.
  - simpl. lia.
  - simpl in H. apply andb_prop in H as [Ht Hrest]. apply Z.eqb_eq in Ht.
    change (last (t :: rest) t0) with
      (match rest with [] => t | _ :: _ => last rest t0 end).
    destruct rest as [| t' rest'].
    + simpl. lia.
    + change (match t' :: rest' with [] => t | _ :: _ => last (t' :: rest') t0 end)
        with (last (t' :: rest') t0).
      replace (last (t' :: rest') t0) with (last (t' :: rest') t)
        by (clear; revert t'; induction rest'; intros; simpl in *; trivial).
      rewrite IH by (rewrite Ht; exact Hrest).
      cbn [List.length]. lia.
Qed.

(** What the loop body writes for one span: its own positions get the
    tags of the span, every other position keeps what it had. *)
Lemma encode_span_spec (R : Type) (fmt : string) (ls : list string)
    (span : Span R) (value : string) :
  span_in_sentence (List.length ls) span = true ->
  exists ls',
    encode_span fmt ls span value = Ok ls'
    /\ List.length ls' = List.length ls
    /\ forall p, nth_error ls' p
                 = if covers span p then Some (span_tag fmt span value p)
                   else nth_error ls p.
Proof.
  intros Hwf. destruct span as [| t0 rest]; [discriminate |].
  unfold span_in_sentence in Hwf.
  apply andb_prop in Hwf as [Hwf Hend]. apply andb_prop in Hwf as [Hpos Hcons].
  apply Z.leb_le in Hpos, Hend. cbn [List.length] in Hend.
  pose proof (covers_consecutive R) as Hcov.
  assert (Hrest : consecutive_from (idx t0 + 1) rest = true).
  { simpl in Hcons. now apply andb_prop in Hcons as [_ Hcons]. }
  pose proof (last_consecutive R rest t0 Hrest) as Hlast.
  unfold encode_span, span_tag, first_idx, last_idx, getitem, getitem_last.
  cbn [nth_error bind].
  destruct (String.eqb fmt "BIOES").
  - destruct rest as [| t1 rest'].
    + cbn [List.length Nat.eqb].
      destruct (setitem_spec _ ls (idx t0 - 1)%Z ("S-" ++ value))
        as [l1 [E1 [L1 N1]]]; [simpl in Hend; lia |].
      exists l1. split; [exact E1 |]. split; [exact L1 |].
      intros p. rewrite N1, (Hcov p _ _ Hcons). cbn [List.length].
      bool_cases.
    + set (rest := t1 :: rest') in *.
      assert (Hlen : (List.length (t0 :: rest) =? 1)%nat = false)
        by reflexivity.
      rewrite Hlen.
      destruct (setitem_spec _ ls (idx t0 - 1)%Z ("B-" ++ value))
        as [l1 [E1 [L1 N1]]]; [lia |].
      rewrite E1. cbn [bind].
      destruct (setitem_spec _ l1 (idx (last rest t0) - 1)%Z ("E-" ++ value))
        as [l2 [E2 [L2 N2]]]; [rewrite L1, Hlast; lia |].
      rewrite E2. cbn [bind].
      destruct (fill_range_spec ("I-" ++ value) _ (idx t0)
                  (idx (last rest t0) - 1)%Z l2 eq_refl)
        as [l3 [E3 [L3 N3]]]; [lia | rewrite L2, L1, Hlast; lia |].
      exists l3. split; [exact E3 |]. split; [congruence |].
      intros p. rewrite N3, N2, N1, (Hcov p _ _ Hcons), Hlast.
      assert (Hn : (1 <= Z.of_nat (List.length rest))%Z)
        by (unfold rest; cbn [List.length]; lia).
      cbn [List.length]. bool_cases.
  - destruct (setitem_spec _ ls (idx t0 - 1)%Z ("B-" ++ value))
      as [l1 [E1 [L1 N1]]]; [lia |].
    rewrite E1. cbn [bind].
    destruct (fill_range_spec ("I-" ++ value) _ (idx t0)
                (idx (last rest t0)) l1 eq_refl)
      as [l2 [E2 [L2 N2]]]; [lia | rewrite L1, Hlast; lia |].
    exists l2. split; [exact E2 |]. split; [congruence |].
    intros p. rewrite N2, N1, (Hcov p _ _ Hcons), Hlast.
    cbn [List.length]. bool_cases.
Qed.

(** The loop over the labels of a sentence, started on any list. *)
Lemma encode_spans_spec (R : Type) (fmt : string)
    (anns : list (Span R * Label R)) :
  forall ls0 : list string,
  Forall (fun a => span_in_sentence (List.length ls0) (fst a) = true) anns ->
  ForallOrdPairs (fun a b => disjoint_spans (fst a) (fst b)) anns ->
  exists ls,
    for_each (fun ls a => encode_span fmt ls (fst a) (l_value (snd a)))
      anns ls0 = Ok ls
    /\ List.length ls = List.length ls0
    /\ (forall a p, In a anns -> covers (fst a) p = true ->
          nth_error ls p
          = Some (span_tag fmt (fst a) (l_value (snd a)) p))
    /\ (forall p, (forall a, In a anns -> covers (fst a) p = false) ->
          nth_error ls p = nth_error ls0 p).
Proof.
  induction anns as [| a anns IH]; intros ls0 Hwf Hdis.
  - exists ls0. repeat split; trivial. intros a p [].
  - inversion Hwf as [| ? ? Ha Hwf']; subst.
    inversion Hdis as [| ? ? Hhead Hdis']; subst.
    destruct (encode_span_spec R fmt ls0 (fst a) (l_value (snd a)) Ha)
      as [ls1 [E1 [L1 N1]]].
    destruct (IH ls1) as [ls [E [L [Hin Hout]]]]; trivial.
    { now rewrite L1. }
    cbn [for_each]. rewrite E1. cbn [bind].
    exists ls. split; [exact E |]. split; [congruence |]. split.
    + intros a' p [<- | Ha'] Hcov.
      * rewrite Hout, N1, Hcov; [reflexivity |].
        intros b Hb. rewrite Forall_forall in Hhead.
        now apply (Hhead b Hb p).
      * now apply Hin.
    + intros p Hnone. rewrite Hout, N1.
      * now rewrite (Hnone a (or_introl eq_refl)).
      * intros b Hb. apply Hnone. now right.
Qed.

Lemma sentence_gold_labels_spec (R : Type) (m : DualEncoder)
    (s : Sentence R) :
  Forall (fun a => span_in_sentence (Sentence_len s) (fst a) = true)
    (gold_spans m s) ->
  ForallOrdPairs (fun a b => disjoint_spans (fst a) (fst b))
    (gold_spans m s) ->
  exists ls, sentence_gold_labels m s = Ok ls /\ encodes m s ls.
Proof.
  intros Hwf Hdis. unfold sentence_gold_labels.
  destruct (encode_spans_spec R (tag_format m) (gold_spans m s)
              (repeat "O" (Sentence_len s)))
    as [ls [E [L [Hin Hout]]]]; trivial.
  { now rewrite repeat_length. }
  exists ls. split; [exact E |]. unfold encodes.
  rewrite repeat_length in L. repeat split; trivial.
  intros p Hp Hnone. rewrite Hout by assumption.
  now apply nth_error_repeat.
Qed.

(** C4: in span mode, for a batch whose sentences carry gold spans that
    lie inside their sentence and do not overlap, [_get_gold_labels]
    returns for each sentence a list with one tag per token in which
    every position of a span has the tag of [span_tag] (under BIOES "S-"
    for a span of one token, else "B-" first, "E-" last and "I-" in
    between; under BIO "B-" first and "I-" on the rest) and every other
    position has "O". *)
Theorem get_gold_labels_encodes (R : Type) (m : DualEncoder)
    (sentences : list (Sentence R)) :
  predict_spans m = true ->
  Forall (fun s =>
            Forall (fun a => span_in_sentence (Sentence_len s) (fst a) = true)
              (gold_spans m s)
            /\ ForallOrdPairs (fun a b => disjoint_spans (fst a) (fst b))
                 (gold_spans m s))
    sentences ->
  exists labels,
    _get_gold_labels m sentences = Ok labels
    /\ Forall2 (encodes m) sentences labels.
Proof.
  intros Hspan Hall. unfold _get_gold_labels. rewrite Hspan.
  induction Hall as [| s ss [Hwf Hdis] _ IH].
  - exists []. split; [reflexivity | constructor].
  - destruct (sentence_gold_labels_spec R m s Hwf Hdis) as [ls [E Henc]].
    destruct IH as [lss [Ess Hencs]].
    exists (ls :: lss). cbn [map_r]. rewrite E. cbn [bind].
    rewrite Ess. cbn [bind]. split; [reflexivity |].
    now constructor.
Qed.

Lemma get_gold_labels_encodes_witness :
  exists labels,
    _get_gold_labels (span_model "BIOES") [five_token_sentence] = Ok labels
    /\ Forall2 (encodes (span_model "BIOES")) [five_token_sentence] labels.
Proof.
  apply (get_gold_labels_encodes Z (span_model "BIOES") [five_token_sentence]).
  - reflexivity.
  - constructor; [| constructor]. split.
    + repeat constructor.
    + repeat constructor. intros p. unfold covers.
      cbn -[Z.eqb Z.add Z.of_nat].
      destruct (Z.eqb_spec 1 (Z.of_nat p + 1)); [| discriminate].
      intros _.
      destruct (Z.eqb_spec 3 (Z.of_nat p + 1)); [lia |].
      destruct (Z.eqb_spec 4 (Z.of_nat p + 1)); [lia |].
      destruct (Z.eqb_spec 5 (Z.of_nat p + 1)); [lia | reflexivity].
Defined.

(** The two encodings on the example sentence. *)
Example gold_labels_five_tokens :
  _get_gold_labels (span_model "BIOES") [five_token_sentence]
  = Ok [["S-X"; "O"; "B-Y"; "I-Y"; "E-Y"]]
  /\ _get_gold_labels (span_model "BIO") [five_token_sentence]
     = Ok [["B-X"; "O"; "B-Y"; "I-Y"; "I-Y"]].
Proof. split; reflexivity. Qed.

(** * Further properties of the label space and the scorer *)

Lemma flat_map_tags_NoDup (fmt : string) (labels : list string) :
  supported fmt -> NoDup labels ->
  NoDup (flat_map (expanded_tags fmt) labels).
Proof.
  intros Hfmt. induction labels as [| l labels IH]; intros Hnd; simpl.
  - constructor.
  - inversion Hnd as [| ? ? Hnotin Hnd']; subst.
    apply NoDup_app.
    + now apply expanded_tags_NoDup.
    + now apply IH.
    + intros t Ht Hin. apply in_flat_map in Hin as [l' [Hl' Ht']].
      assert (l = l') by (eapply expanded_tags_inv; eassumption).
      subst. contradiction.
Qed.

Lemma expanded_items_NoDup (fmt : string) (labels : list string) :
  supported fmt -> NoDup labels -> NoDup (expanded_items fmt labels).
Proof.
  intros Hfmt Hnd. destruct labels as [| l0 labels]; [constructor |].
  unfold expanded_items. constructor.
  - intros Hin. apply in_flat_map in Hin as [l [_ Hl]].
    now apply expanded_tags_not_O in Hl.
  - now apply flat_map_tags_NoDup.
Qed.

Lemma base_labels_NoDup (d : Dictionary) :
  NoDup (get_items d) -> NoDup (base_labels d).
Proof. intros H. unfold base_labels. now apply NoDup_filter. Qed.

Lemma add_item_add_unk (d : Dictionary) (x : string) :
  add_unk (add_item d x) = add_unk d.
Proof. unfold add_item. now destruct (mem x (idx2item d)). Qed.

Lemma fold_expand_add_unk (fmt : string) (ls : list string) :
  forall d, add_unk (fold_left (expand_label fmt) ls d) = add_unk d.
Proof.
  induction ls as [| l ls IH]; intros d; simpl; [reflexivity |].
  rewrite IH. unfold expand_label.
  destruct (String.eqb l unk); [reflexivity |].
  destruct (String.eqb fmt "BIOES"), (String.eqb fmt "BIO");
    now rewrite ?add_item_add_unk.
Qed.

(** The content of the expanded dictionary, for a span-level dictionary
    with at least one base label: "O" first, then the variants of each
    base label in the order of the input dictionary, without the unknown
    sentinel and without repetition. *)
Theorem expanded_dictionary_items (d : Dictionary) (ty fmt : string) :
  span_labels d = true -> NoDup (get_items d) -> base_labels d <> [] ->
  supported (upper fmt) ->
  exists m,
    DualEncoder_init d ty fmt = Ok m
    /\ get_items (label_dictionary m)
       = "O" :: flat_map (expanded_tags (upper fmt)) (base_labels d)
    /\ NoDup (get_items (label_dictionary m))
    /\ ~ In unk (get_items (label_dictionary m))
    /\ add_unk (label_dictionary m) = false
    /\ predict_spans m = true.
Proof.
  intros Hspan Hnd Hbase Hfmt. unfold DualEncoder_init.
  destruct (init_span_level d ty (upper fmt) Hfmt Hspan Hnd)
    as [m [Hm [Hitems [_ [_ [_ [_ Hps]]]]]]].
  assert (Hexp : expanded_items (upper fmt) (base_labels d)
                 = "O" :: flat_map (expanded_tags (upper fmt)) (base_labels d)).
  { destruct (base_labels d); [congruence | reflexivity]. }
  exists m. split; [exact Hm |]. unfold get_items at 1 2 3.
  rewrite Hitems. split; [exact Hexp |]. split.
  { apply expanded_items_NoDup; [assumption | now apply base_labels_NoDup]. }
  split.
  { intros Hin. apply In_expanded_items in Hin as [Hin | [l [_ Hl]]].
    - discriminate.
    - unfold expanded_tags in Hl.
      destruct (String.eqb (upper fmt) "BIOES"),
               (String.eqb (upper fmt) "BIO"); simpl in Hl;
        intuition discriminate. }
  split; [| exact Hps].
  unfold _init_verbalizers_and_tag_dictionary in Hm. rewrite Hspan in Hm.
  destruct (mem (upper fmt) ["BIOES"; "BIO"]); [| discriminate].
  cbn [bind] in Hm. injection Hm as <-. cbn [label_dictionary].
  now rewrite fold_expand_add_unk.
Qed.

Lemma expanded_dictionary_items_witness :
  exists m,
    DualEncoder_init (mkDictionary ["<unk>"; "person"; "location"] true true)
      "ner" "bio" = Ok m
    /\ get_items (label_dictionary m)
       = "O" :: flat_map (expanded_tags (upper "bio"))
                  (base_labels
                     (mkDictionary ["<unk>"; "person"; "location"] true true))
    /\ NoDup (get_items (label_dictionary m))
    /\ ~ In unk (get_items (label_dictionary m))
    /\ add_unk (label_dictionary m) = false
    /\ predict_spans m = true.
Proof.
  apply (expanded_dictionary_items
           (mkDictionary ["<unk>"; "person"; "location"] true true)
           "ner" "bio").
  - reflexivity.
  - unfold get_items; simpl.
    repeat constructor; simpl; intuition discriminate.
  - vm_compute. discriminate.
  - left. reflexivity.
Defined.

Lemma verbalize_items_sound (items : list string) : forall (k i : nat)
    (phrase : string),
  In (i, phrase)
     (verbalize_items (combine items (seq k (List.length items)))) ->
  exists tag, nth_error items (i - k) = Some tag /\ (k <= i)%nat
              /\ verbalize tag = Some phrase.
Proof.
  induction items as [| t items IH]; intros k i phrase Hin; simpl in Hin.
  - contradiction.
  - destruct (verbalize t) as [ph |] eqn:Ev.
    + destruct Hin as [Heq | Hin].
      * injection Heq as <- <-. exists t. rewrite Nat.sub_diag.
        repeat split; trivial.
      * apply IH in Hin as [tag [Hn [Hle Hv]]]. exists tag.
        replace (i - k)%nat with (S (i - S k)) by lia.
        repeat split; trivial. lia.
    + apply IH in Hin as [tag [Hn [Hle Hv]]]. exists tag.
      replace (i - k)%nat with (S (i - S k)) by lia.
      repeat split; trivial. lia.
Qed.


Lemma init_verbalized_labels (d : Dictionary) (ty fmt : string)
    (m : DualEncoder) :
  DualEncoder_init d ty fmt = Ok m ->
  idx2verbalized_label m
  = verbalize_items (item2idx_items (label_dictionary m))
  /\ tagset_size m = List.length (get_items (label_dictionary m)).
Proof.
  unfold DualEncoder_init, _init_verbalizers_and_tag_dictionary.
  intros H.
  destruct (span_labels d);
    [destruct (mem (upper fmt) ["BIOES"; "BIO"]); [| discriminate] |];
    cbn [bind] in H; injection H as <-; split; reflexivity.
Qed.

(** Every verbalized label belongs to a tag of the label dictionary: its
    key is the index of a tag, and its phrase is the phrase of that
    tag. *)
Theorem verbalized_labels_sound (d : Dictionary) (ty fmt : string)
    (m : DualEncoder) (i : nat) (phrase : string) :
  DualEncoder_init d ty fmt = Ok m ->
  In (i, phrase) (idx2verbalized_label m) ->
  exists tag,
    get_item_for_index (label_dictionary m) i = Ok tag
    /\ verbalize tag = Some phrase
    /\ (tag = "O" \/ startswith tag "B-" = true \/ startswith tag "I-" = true).
Proof.
  intros Hinit Hin.
  destruct (init_verbalized_labels d ty fmt m Hinit) as [Hverb _].
  rewrite Hverb in Hin. unfold item2idx_items in Hin.
  apply verbalize_items_sound in Hin as [tag [Hn [_ Hv]]].
  rewrite Nat.sub_0_r in Hn. exists tag.
  unfold get_item_for_index, getitem. rewrite Hn.
  split; [reflexivity |]. split; [exact Hv |].
  unfold verbalize in Hv.
  destruct (String.eqb tag "O") eqn:EO.
  - left. now apply String.eqb_eq.
  - destruct (startswith tag "B-"); [now right; left |].
    destruct (startswith tag "I-"); [now right; right | discriminate].
Qed.

Lemma verbalized_labels_sound_witness :
  exists tag,
    get_item_for_index (label_dictionary token_model) 1 = Ok tag
    /\ verbalize tag = Some "inside person"
    /\ (tag = "O" \/ startswith tag "B-" = true \/ startswith tag "I-" = true).
Proof.
  apply (verbalized_labels_sound
           (mkDictionary ["B-person"; "I-person"; "O"] false false)
           "ner" "bio" token_model 1 "inside person").
  - reflexivity.
  - simpl. tauto.
Defined.




Lemma forward_logits_no_labels (R : Type) (fw : Framework R)
    (m : DualEncoder) (sentences : list (Sentence R)) :
  idx2verbalized_label m = [] ->
  forward_logits fw m sentences = Raise RuntimeError.
Proof.
  intros H. unfold forward_logits. rewrite H. simpl.
  destruct (flat_map (fun s => map (token_encoder fw s) (tokens s)) sentences)
    as [| r rest]; [reflexivity |].
  unfold stack at 1.
  destruct (forallb (fun r' => (List.length r' =? List.length r)%nat) rest);
    reflexivity.
Qed.

Lemma verbalize_items_none (items : list string) : forall k : nat,
  (forall t, In t items -> verbalized t = false) ->
  verbalize_items (combine items (seq k (List.length items))) = [].
Proof.
  induction items as [| t items IH]; intros k Hall; simpl; [reflexivity |].
  assert (Ht : verbalized t = false) by (apply Hall; now left).
  unfold verbalized in Ht. destruct (verbalize t); [discriminate |].
  apply IH. intros u Hu. apply Hall. now right.
Qed.

(** A flat tag dictionary none of whose tags is "O" or starts with "B-"
    or "I-" is accepted at construction, but the model has no verbalized
    label and scoring any non-empty batch raises a runtime error. *)
Theorem flat_dictionary_without_phrases (R : Type) (fw : Framework R)
    (d : Dictionary) (ty fmt : string) (sentences : list (Sentence R)) :
  span_labels d = false ->
  (forall t, In t (get_items d) -> verbalized t = false) ->
  sentences <> [] ->
  exists m,
    DualEncoder_init d ty fmt = Ok m
    /\ idx2verbalized_label m = []
    /\ forward_loss fw m sentences = Raise RuntimeError.
Proof.
  intros Hflat Hall Hne.
  unfold DualEncoder_init, _init_verbalizers_and_tag_dictionary.
  rewrite Hflat. cbn [bind]. eexists. split; [reflexivity |].
  cbn [idx2verbalized_label].
  assert (Hnone : verbalize_items (item2idx_items d) = []).
  { unfold item2idx_items. now apply verbalize_items_none. }
  split; [exact Hnone |].
  unfold forward_loss. destruct sentences as [| s ss]; [congruence |].
  cbn [List.length Nat.eqb]. unfold forward.
  rewrite forward_logits_no_labels by exact Hnone. reflexivity.
Qed.

Lemma flat_dictionary_without_phrases_witness :
  exists m,
    DualEncoder_init (mkDictionary ["NOUN"; "VERB"] false false) "pos" "BIO"
    = Ok m
    /\ idx2verbalized_label m = []
    /\ forward_loss constant_framework m
         [mkSentence [mkToken 1 "Berlin" []] []] = Raise RuntimeError.
Proof.
  apply (flat_dictionary_without_phrases Z constant_framework
           (mkDictionary ["NOUN"; "VERB"] false false) "pos" "BIO"
           [mkSentence [mkToken 1%Z "Berlin" []] []]).
  - reflexivity.
  - intros t [<- | [<- | []]]; reflexivity.
  - discriminate.
Defined.

(** A batch that is not empty but has no token at all makes [forward_loss]
    raise a runtime error: the list of token embeddings to stack is
    empty. *)
Theorem forward_loss_without_tokens (R : Type) (fw : Framework R)
    (m : DualEncoder) (sentences : list (Sentence R)) :
  sentences <> [] -> (forall s, In s sentences -> tokens s = []) ->
  forward_loss fw m sentences = Raise RuntimeError.
Proof.
  intros Hne Hall. unfold forward_loss.
  destruct sentences as [| s ss] eqn:E; [congruence |].
  cbn [List.length Nat.eqb]. rewrite <- E in *. unfold forward, forward_logits.
  assert (H : flat_map (fun s => map (token_encoder fw s) (tokens s)) sentences
              = []).
  { clear E Hne. induction sentences as [| s0 ss0 IH]; [reflexivity |].
    simpl. rewrite (Hall s0) by now left. simpl. apply IH.
    intros s1 Hs1. apply Hall. now right. }
  rewrite H. reflexivity.
Qed.

Lemma forward_loss_without_tokens_witness :
  forward_loss constant_framework token_model [mkSentence [] []]
  = Raise RuntimeError.
Proof.
  apply (forward_loss_without_tokens Z constant_framework token_model
           [mkSentence [] []]).
  - discriminate.
  - intros s [<- | []]. reflexivity.
Defined.

Lemma batches_nil (A : Type) (fuel batch_size : nat) :
  batches fuel batch_size (@nil A) = [].
Proof. destruct fuel; reflexivity. Qed.

(** [predict] filters the sentences without tokens before it scores: on a
    list of such sentences it does not call [forward], raises nothing and
    reports the zero loss over 0 labels when asked for the loss. *)
Theorem predict_without_tokens (R : Type) (fw : Framework R) (m : DualEncoder)
    (sentences : list (Sentence R)) (mini_batch_size : nat)
    (label_name : option string) (return_loss force : bool) :
  sentences <> [] -> (forall s, In s sentences -> tokens s = []) ->
  mini_batch_size <> 0 ->
  predict fw m sentences mini_batch_size label_name return_loss force
  = Ok ([], if return_loss then ReturnLoss (zero fw) 0 else ReturnNone).
Proof.
  intros Hne Hall Hbs. unfold predict.
  destruct sentences as [| s0 ss] eqn:E; [congruence |]. rewrite <- E in *.
  assert (H : filter (fun s => (0 <? Sentence_len s)%nat) sentences = []).
  { clear E Hne. induction sentences as [| s ss' IH]; [reflexivity |].
    simpl. unfold Sentence_len at 1. rewrite (Hall s) by now left.
    simpl. apply IH. intros s1 Hs1. apply Hall. now right. }
  rewrite H. unfold DataLoader. apply Nat.eqb_neq in Hbs. rewrite Hbs.
  cbn [bind List.length]. rewrite batches_nil. reflexivity.
Qed.

Lemma predict_without_tokens_witness :
  predict constant_framework token_model [mkSentence [] []] 32 None true false
  = Ok ([], ReturnLoss (zero constant_framework) 0).
Proof.
  apply (predict_without_tokens Z constant_framework token_model
           [mkSentence [] []] 32 None true false).
  - discriminate.
  - intros s [<- | []]. reflexivity.
  - discriminate.
Defined.

(** ** Decoding the predictions of a batch *)

Lemma map_r_ok (A B : Type) (f : A -> result B) (g : A -> B) (xs : list A) :
  (forall x, In x xs -> f x = Ok (g x)) -> map_r f xs = Ok (map g xs).
Proof.
  induction xs as [| x xs IH]; intros H; simpl; [reflexivity |].
  rewrite (H x) by now left. cbn [bind].
  rewrite IH by (intros y Hy; apply H; now right). reflexivity.
Qed.

Lemma split_sizes_map (A B : Type) (f : A -> B) (sizes : list nat) :
  forall xs : list A,
  split_sizes (map f xs) sizes = map (map f) (split_sizes xs sizes).
Proof.
  induction sizes as [| n sizes IH]; intros xs; simpl; [reflexivity |].
  now rewrite firstn_map, skipn_map, IH.
Qed.

Lemma split_sizes_concat (A : Type) (sizes : list nat) : forall xs : list A,
  List.length xs = list_sum sizes ->
  List.concat (split_sizes xs sizes) = xs
  /\ Forall2 (fun part n => List.length part = n) (split_sizes xs sizes) sizes.
Proof.
  induction sizes as [| n sizes IH]; intros xs Hlen; simpl in *.
  - destruct xs; [split; [reflexivity | constructor] | discriminate].
  - destruct (IH (skipn n xs)) as [Hc Hf].
    { rewrite length_skipn. lia. }
    split.
    + rewrite Hc. apply firstn_skipn.
    + constructor; [| exact Hf]. rewrite length_firstn. lia.
Qed.

Lemma split_sizes_In (A : Type) (sizes : list nat) : forall (xs part : list A)
    (x : A),
  In part (split_sizes xs sizes) -> In x part -> In x xs.
Proof.
  induction sizes as [| n sizes IH]; intros xs part x Hp Hx; simpl in Hp.
  - contradiction.
  - destruct Hp as [<- | Hp].
    + rewrite <- (firstn_skipn n xs). apply in_or_app. now left.
    + rewrite <- (firstn_skipn n xs). apply in_or_app. right.
      eapply IH; eassumption.
Qed.

Lemma combine_map_snd_fst (A B : Type) (xs : list (A * B)) :
  combine (map snd xs) (map fst xs) = map (fun b => (snd b, fst b)) xs.
Proof.
  induction xs as [| x xs IH]; simpl; [reflexivity | now rewrite IH].
Qed.

Lemma combine_map_map (A B C : Type) (f : A -> B) (g : A -> C)
    (xs : list A) :
  combine (map f xs) (map g xs) = map (fun x => (f x, g x)) xs.
Proof.
  induction xs as [| x xs IH]; simpl; [reflexivity | now rewrite IH].
Qed.

Lemma Forall2_lengths_map (A B : Type) (f : B -> nat) (ss : list B) :
  forall parts : list (list A),
  Forall2 (fun part n => List.length part = n) parts (map f ss) ->
  Forall2 (fun part s => List.length part = f s) parts ss.
Proof.
  induction ss as [| s ss IH]; intros parts H; simpl in H.
  - inversion H. constructor.
  - inversion H as [| part n parts' ns Hp Hrest]; subst.
    constructor; [exact Hp | now apply IH].
Qed.

(** Decoding, for logits with one row per token of the batch whose best
    columns are indices of the label dictionary.  When the first sentence
    of the batch has a token, decoding succeeds: the result has one list
    per sentence, as long as the sentence, and read in a row it pairs,
    token by token, the tag of the best column with its score.  When the
    first sentence has no token, decoding raises a type error. *)
Theorem decode_predictions_per_sentence (R : Type) (fw : Framework R)
    (m : DualEncoder) (s0 : Sentence R) (rest : list (Sentence R))
    (logits : Matrix R) :
  List.length logits = list_sum (map Sentence_len (s0 :: rest)) ->
  (forall row, In row logits ->
     (snd (softmax_max fw row) < Dictionary_len (label_dictionary m))%nat) ->
  (tokens s0 = [] ->
   decode_predictions fw m (s0 :: rest) logits = Raise TypeError)
  /\ (tokens s0 <> [] ->
      exists preds,
        decode_predictions fw m (s0 :: rest) logits = Ok preds
        /\ Forall2 (fun p s => List.length p = Sentence_len s) preds
             (s0 :: rest)
        /\ List.concat preds
           = map (fun row =>
                    (nth (snd (softmax_max fw row))
                       (get_items (label_dictionary m)) "",
                     fst (softmax_max fw row))) logits).
Proof.
  intros Hlen Hidx. split.
  { intros Hempty. unfold decode_predictions, split_lengths, Sentence_len.
    rewrite Hempty. reflexivity. }
  intros Hfirst.
  set (sentences := s0 :: rest) in *.
  set (best := map (softmax_max fw) logits).
  set (lengths := map Sentence_len sentences).
  set (items := get_items (label_dictionary m)).
  set (g := fun b : R * nat => (nth (snd b) items "", fst b)).
  assert (Hbest : List.length best = list_sum lengths)
    by (unfold best; now rewrite length_map).
  destruct (split_sizes_concat _ lengths best Hbest) as [Hc Hf].
  assert (Hsizes : split_lengths sentences = Ok lengths).
  { unfold split_lengths, sentences, Sentence_len at 1.
    destruct (tokens s0); [congruence | reflexivity]. }
  assert (Hdec : decode_predictions fw m sentences logits
                 = Ok (map (map g) (split_sizes best lengths))).
  { unfold decode_predictions. fold best. rewrite Hsizes. cbn [bind].
    rewrite Hbest, Nat.eqb_refl. cbn [negb].
    rewrite !split_sizes_map, combine_map_map.
    rewrite (map_r_ok _ _ _
               (fun ps : list nat * list R =>
                  map (fun p => (nth (fst p) items "", snd p))
                    (combine (fst ps) (snd ps)))).
    - f_equal. rewrite map_map. apply map_ext. intros part.
      cbn [fst snd]. rewrite combine_map_snd_fst, map_map.
      apply map_ext. intros [sc i]. reflexivity.
    - intros ps Hps. apply in_map_iff in Hps as [part [<- Hpart]].
      cbn [fst snd]. apply map_r_ok. intros p Hp.
      rewrite combine_map_snd_fst in Hp.
      apply in_map_iff in Hp as [b0 [<- Hb0]].
      assert (Hin : In b0 best) by (eapply split_sizes_In; eassumption).
      unfold best in Hin. apply in_map_iff in Hin as [row [<- Hrow]].
      specialize (Hidx row Hrow). cbn [fst snd].
      unfold get_item_for_index, getitem, Dictionary_len in *.
      destruct (nth_error (idx2item (label_dictionary m))
                  (snd (softmax_max fw row))) as [tag |] eqn:En.
      + cbn [bind]. unfold items, get_items.
        now rewrite (nth_error_nth _ _ _ En).
      + apply nth_error_None in En. lia. }
  exists (map (map g) (split_sizes best lengths)).
  split; [exact Hdec |]. split.
  - apply Forall2_lengths_map in Hf.
    clear - Hf. induction Hf; simpl; constructor; trivial.
    now rewrite length_map.
  - rewrite <- concat_map, Hc. unfold best. rewrite map_map. reflexivity.
Qed.

Lemma decode_predictions_per_sentence_witness :
  (tokens (mkSentence [mkToken 1%Z "Berlin" []] [] : Sentence Z) = [] ->
   decode_predictions constant_framework token_model
     [mkSentence [mkToken 1%Z "Berlin" []] []; mkSentence [] []]
     [[11; 11; 11]%Z] = Raise TypeError)
  /\ (tokens (mkSentence [mkToken 1%Z "Berlin" []] [] : Sentence Z) <> [] ->
      exists preds,
        decode_predictions constant_framework token_model
          [mkSentence [mkToken 1%Z "Berlin" []] []; mkSentence [] []]
          [[11; 11; 11]%Z] = Ok preds
        /\ Forall2 (fun p (s : Sentence Z) => List.length p = Sentence_len s)
             preds [mkSentence [mkToken 1%Z "Berlin" []] []; mkSentence [] []]
        /\ List.concat preds
           = map (fun row =>
                    (nth (snd (softmax_max constant_framework row))
                       (get_items (label_dictionary token_model)) "",
                     fst (softmax_max constant_framework row)))
               [[11; 11; 11]%Z]).
Proof.
  apply (decode_predictions_per_sentence Z constant_framework token_model
           (mkSentence [mkToken 1%Z "Berlin" []] []) [mkSentence [] []]
           [[11; 11; 11]%Z]).
  - reflexivity.
  - intros row _. vm_compute. lia.
Defined.

(** A batch led by a sentence without tokens: scoring with inference and
    features gets as far as the decoding and fails there. *)
Example decode_predictions_empty_first :
  decode_predictions constant_framework token_model
    [mkSentence [] []; mkSentence [mkToken 1 "Berlin" []] []]
    [[11; 11; 11]%Z] = Raise TypeError
  /\ forward constant_framework token_model
       [mkSentence [] []; mkSentence [mkToken 1 "Berlin" []] []] true true
     = Raise TypeError
  /\ forward constant_framework token_model
       [mkSentence [mkToken 1 "Berlin" []] []; mkSentence [] []] true true
     = Ok (0%Z, [[("B-person", 1%Z)]; []], [[11; 11; 11]%Z]).
Proof. repeat split; reflexivity. Qed.

(** ** More on gold labels *)

Lemma for_each_app (A S : Type) (body : S -> A -> result S)
    (xs ys : list A) : forall s : S,
  for_each body (xs ++ ys)%list s
  = bind (for_each body xs s) (for_each body ys).
Proof.
  induction xs as [| x xs IH]; intros s; simpl; [reflexivity |].
  destruct (body s x) as [s' | e]; simpl; [apply IH | reflexivity].
Qed.

(** The loop over the labels of a sentence without any assumption on
    overlaps: it succeeds, keeps the length and leaves alone what no span
    covers. *)
Lemma encode_spans_total (R : Type) (fmt : string)
    (anns : list (Span R * Label R)) :
  forall ls0 : list string,
  Forall (fun a => span_in_sentence (List.length ls0) (fst a) = true) anns ->
  exists ls,
    for_each (fun ls a => encode_span fmt ls (fst a) (l_value (snd a)))
      anns ls0 = Ok ls
    /\ List.length ls = List.length ls0
    /\ (forall p, (forall a, In a anns -> covers (fst a) p = false) ->
          nth_error ls p = nth_error ls0 p).
Proof.
  induction anns as [| a anns IH]; intros ls0 Hwf.
  - exists ls0. repeat split; trivial.
  - inversion Hwf as [| ? ? Ha Hwf']; subst.
    destruct (encode_span_spec R fmt ls0 (fst a) (l_value (snd a)) Ha)
      as [ls1 [E1 [L1 N1]]].
    destruct (IH ls1) as [ls [E [L Hout]]]; [now rewrite L1 |].
    cbn [for_each]. rewrite E1. cbn [bind].
    exists ls. split; [exact E |]. split; [congruence |].
    intros p Hnone. rewrite Hout, N1.
    + now rewrite (Hnone a (or_introl eq_refl)).
    + intros b Hb. apply Hnone. now right.
Qed.

(** When gold spans overlap, the later label wins: a position has the tag
    of the last span, in the order of the sentence's labels, that covers
    it. *)
Theorem gold_labels_last_span_wins (R : Type) (m : DualEncoder)
    (s : Sentence R) (pre post : list (Span R * Label R))
    (a : Span R * Label R) (p : nat) :
  predict_spans m = true ->
  gold_spans m s = (pre ++ a :: post)%list ->
  Forall (fun b => span_in_sentence (Sentence_len s) (fst b) = true)
    (gold_spans m s) ->
  covers (fst a) p = true ->
  (forall b, In b post -> covers (fst b) p = false) ->
  exists ls,
    _get_gold_labels m [s] = Ok [ls]
    /\ nth_error ls p
       = Some (span_tag (tag_format m) (fst a) (l_value (snd a)) p).
Proof.
  intros Hspan Hsplit Hwf Hcov Hpost.
  unfold _get_gold_labels. rewrite Hspan. cbn [map_r].
  unfold sentence_gold_labels. fold (gold_spans m s).
  rewrite Hsplit in *. rewrite for_each_app.
  apply Forall_app in Hwf as [Hpre Hrest].
  inversion Hrest as [| ? ? Ha Hpostwf]; subst.
  destruct (encode_spans_total R (tag_format m) pre
              (repeat "O" (Sentence_len s)))
    as [ls1 [E1 [L1 _]]]; [now rewrite repeat_length |].
  rewrite repeat_length in L1.
  rewrite E1. cbn [bind for_each].
  destruct (encode_span_spec R (tag_format m) ls1 (fst a) (l_value (snd a)))
    as [ls2 [E2 [L2 N2]]]; [now rewrite L1 |].
  rewrite E2. cbn [bind].
  destruct (encode_spans_total R (tag_format m) post ls2)
    as [ls3 [E3 [L3 N3]]]; [now rewrite L2, L1 |].
  rewrite E3. cbn [bind]. exists ls3. split; [reflexivity |].
  rewrite (N3 p Hpost), N2, Hcov. reflexivity.
Qed.

Lemma gold_labels_last_span_wins_witness :
  exists ls,
    _get_gold_labels (span_model "BIOES")
      [mkSentence five_tokens
         [(firstn 3 five_tokens, mkLabel "ner" "X" 1%Z);
          (skipn 2 five_tokens, mkLabel "ner" "Y" 1%Z)]] = Ok [ls]
    /\ nth_error ls 2
       = Some (span_tag (tag_format (span_model "BIOES"))
                 (fst (skipn 2 five_tokens, mkLabel "ner" "Y" 1%Z))
                 (l_value (snd (skipn 2 five_tokens, mkLabel "ner" "Y" 1%Z)))
                 2).
Proof.
  apply (gold_labels_last_span_wins Z (span_model "BIOES")
           (mkSentence five_tokens
              [(firstn 3 five_tokens, mkLabel "ner" "X" 1%Z);
               (skipn 2 five_tokens, mkLabel "ner" "Y" 1%Z)])
           [(firstn 3 five_tokens, mkLabel "ner" "X" 1%Z)] []
           (skipn 2 five_tokens, mkLabel "ner" "Y" 1%Z) 2).
  - reflexivity.
  - reflexivity.
  - repeat constructor.
  - reflexivity.
  - intros b [].
Defined.

(** The overlap of the example: "X" on tokens 1-3, then "Y" on tokens
    3-5; token 3 ends up as the beginning of "Y" and "X" loses its end. *)
Example gold_labels_overlap :
  _get_gold_labels (span_model "BIOES")
    [mkSentence five_tokens
       [(firstn 3 five_tokens, mkLabel "ner" "X" 1%Z);
        (skipn 2 five_tokens, mkLabel "ner" "Y" 1%Z)]]
  = Ok [["B-X"; "I-X"; "B-Y"; "I-Y"; "E-Y"]].
Proof. reflexivity. Qed.

Lemma setitem_beyond (A : Type) (xs : list A) (i : Z) (v : A) :
  (Z.of_nat (List.length xs) <= i)%Z -> setitem xs i v = Raise IndexError.
Proof.
  intros H. unfold setitem.
  assert (H1 : (i <? Z.of_nat (List.length xs))%Z = false)
    by (apply Z.ltb_ge; lia).
  assert (H2 : (i <? 0)%Z = false) by (apply Z.ltb_ge; lia).
  rewrite H1, H2, !andb_false_r. reflexivity.
Qed.

(** A gold span without tokens, or one whose first token lies behind the
    end of the sentence, makes [_get_gold_labels] raise an index error
    (the spans before it being inside the sentence). *)
Theorem gold_span_outside_sentence (R : Type) (m : DualEncoder)
    (s : Sentence R) (pre post : list (Span R * Label R))
    (a : Span R * Label R) (ss : list (Sentence R)) :
  predict_spans m = true ->
  gold_spans m s = (pre ++ a :: post)%list ->
  Forall (fun b => span_in_sentence (Sentence_len s) (fst b) = true) pre ->
  (fst a = []
   \/ exists t0 rest, fst a = t0 :: rest
                      /\ (Z.of_nat (Sentence_len s) < idx t0)%Z) ->
  _get_gold_labels m (s :: ss) = Raise IndexError.
Proof.
  intros Hspan Hsplit Hpre Hbad.
  unfold _get_gold_labels. rewrite Hspan. cbn [map_r].
  unfold sentence_gold_labels. fold (gold_spans m s).
  rewrite Hsplit, for_each_app.
  destruct (encode_spans_total R (tag_format m) pre
              (repeat "O" (Sentence_len s)))
    as [ls1 [E1 [L1 _]]]; [now rewrite repeat_length |].
  rewrite repeat_length in L1. rewrite E1. cbn [bind for_each].
  assert (Henc : encode_span (tag_format m) ls1 (fst a) (l_value (snd a))
                 = Raise IndexError).
  { unfold encode_span. destruct Hbad as [-> | [t0 [rest [-> Hidx]]]].
    - destruct (String.eqb (tag_format m) "BIOES"); reflexivity.
    - unfold getitem. cbn [nth_error bind].
      destruct (String.eqb (tag_format m) "BIOES");
        [destruct (List.length (t0 :: rest) =? 1)%nat |];
        rewrite setitem_beyond by lia; reflexivity. }
  rewrite Henc. reflexivity.
Qed.

Lemma gold_span_outside_sentence_witness :
  _get_gold_labels (span_model "BIO")
    [mkSentence (firstn 2 five_tokens)
       [(skipn 3 five_tokens, mkLabel "ner" "Y" 1%Z)]]
  = Raise IndexError.
Proof.
  apply (gold_span_outside_sentence Z (span_model "BIO")
           (mkSentence (firstn 2 five_tokens)
              [(skipn 3 five_tokens, mkLabel "ner" "Y" 1%Z)])
           [] [] (skipn 3 five_tokens, mkLabel "ner" "Y" 1%Z) []).
  - reflexivity.
  - reflexivity.
  - constructor.
  - right. exists (mkToken 4%Z "York" []), [mkToken 5%Z "City" []].
    split; [reflexivity | vm_compute; reflexivity].
Defined.

(** ** Gold labels outside the label dictionary *)

Lemma gold_labels_batch_spec (R : Type) (m : DualEncoder)
    (sentences : list (Sentence R)) :
  predict_spans m = true ->
  Forall (fun s =>
            Forall (fun a => span_in_sentence (Sentence_len s) (fst a) = true)
              (gold_spans m s)
            /\ ForallOrdPairs (fun a b => disjoint_spans (fst a) (fst b))
                 (gold_spans m s))
    sentences ->
  exists labels,
    _get_gold_labels m sentences = Ok labels
    /\ Forall2 (encodes m) sentences labels.
Proof.
  intros Hspan Hall. unfold _get_gold_labels. rewrite Hspan.
  induction Hall as [| s ss [Hwf Hdis] _ IH].
  - exists []. split; [reflexivity | constructor].
  - destruct (sentence_gold_labels_spec R m s Hwf Hdis) as [ls [E Henc]].
    destruct IH as [lss [Ess Hencs]].
    exists (ls :: lss). cbn [map_r]. rewrite E. cbn [bind].
    rewrite Ess. cbn [bind]. split; [reflexivity | now constructor].
Qed.

Lemma index_of_None (item : string) (xs : list string) :
  ~ In item xs -> index_of item xs = None.
Proof.
  induction xs as [| x xs IH]; intros H; simpl; [reflexivity |].
  destruct (String.eqb_spec item x) as [-> | Hne].
  - exfalso. apply H. now left.
  - rewrite IH; [reflexivity |]. intros Hin. apply H. now right.
Qed.

Lemma map_r_raises (A B : Type) (f : A -> result B) (xs : list A) (x : A) :
  In x xs -> raises (f x) -> raises (map_r f xs).
Proof.
  induction xs as [| y ys IH]; intros Hin Hx; [contradiction |].
  simpl. destruct (f y) as [b | e] eqn:Ey.
  - destruct Hin as [-> | Hin].
    + destruct Hx as [e He]. congruence.
    + cbn [bind]. destruct (IH Hin Hx) as [e He]. rewrite He.
      exists e. reflexivity.
  - exists e. reflexivity.
Qed.

Lemma span_tag_prefixed (R : Type) (fmt : string) (span : Span R)
    (value : string) (p : nat) :
  In (span_tag fmt span value p)
    ["S-" ++ value; "B-" ++ value; "E-" ++ value; "I-" ++ value].
Proof.
  unfold span_tag.
  destruct (String.eqb fmt "BIOES");
    [destruct (List.length span =? 1)%nat |];
    repeat match goal with
           | |- context [(?a =? ?b)%Z] => destruct (a =? b)%Z
           end; simpl; tauto.
Qed.

Lemma prefixed_in_expanded_items (fmt value t : string)
    (labels : list string) :
  In t ["S-" ++ value; "B-" ++ value; "E-" ++ value; "I-" ++ value] ->
  In t (expanded_items fmt labels) -> In value labels.
Proof.
  intros Ht Hin. apply In_expanded_items in Hin as [-> | [l [Hl Htl]]].
  - simpl in Ht. intuition discriminate.
  - assert (value = l); [| now subst].
    unfold expanded_tags in Htl.
    destruct (String.eqb fmt "BIOES"), (String.eqb fmt "BIO");
      simpl in Ht, Htl; intuition (subst; try discriminate; congruence).
Qed.

Lemma In_concat_nth (A : Type) (lss : list (list A)) (ls : list A) (x : A)
    (p : nat) :
  In ls lss -> nth_error ls p = Some x -> In x (List.concat lss).
Proof.
  intros Hls Hx. apply in_concat. exists ls. split; [assumption |].
  eapply nth_error_In. eassumption.
Qed.

Lemma Forall2_In_left (A B : Type) (P : A -> B -> Prop) (xs : list A)
    (ys : list B) (x : A) :
  Forall2 P xs ys -> In x xs -> exists y, In y ys /\ P x y.
Proof.
  induction 1 as [| x0 y0 xs ys Hxy _ IH]; intros Hin; [contradiction |].
  destruct Hin as [-> | Hin].
  - exists y0. split; [now left | assumption].
  - destruct (IH Hin) as [y [Hy Hp]]. exists y. split; [now right | assumption].
Qed.

(** The expanded dictionary has no unknown sentinel: when the gold spans
    of a batch lie inside their sentences and do not overlap, a gold span
    whose label is not among the base labels of the tag dictionary makes
    [forward], and with it [forward_loss], raise. *)
Theorem forward_unknown_gold_label (R : Type) (fw : Framework R)
    (d : Dictionary) (ty fmt : string) (sentences : list (Sentence R))
    (s : Sentence R) (a : Span R * Label R) :
  span_labels d = true -> NoDup (get_items d) -> supported (upper fmt) ->
  Forall (fun s =>
            Forall (fun a => span_in_sentence (Sentence_len s) (fst a) = true)
              (get_labels s ty)
            /\ ForallOrdPairs (fun a b => disjoint_spans (fst a) (fst b))
                 (get_labels s ty))
    sentences ->
  In s sentences -> In a (get_labels s ty) ->
  ~ In (l_value (snd a)) (base_labels d) ->
  exists m,
    DualEncoder_init d ty fmt = Ok m
    /\ (forall inference return_features,
          raises (forward fw m sentences inference return_features))
    /\ raises (forward_loss fw m sentences).
Proof.
  intros Hspan Hnd Hfmt Hall Hs Ha Hnew. unfold DualEncoder_init.
  destruct (init_span_level d ty (upper fmt) Hfmt Hspan Hnd)
    as [m [Hm [Hitems [_ [_ [Htf [Hty Hps]]]]]]].
  exists m. split; [exact Hm |].
  assert (Hunk : add_unk (label_dictionary m) = false).
  { unfold _init_verbalizers_and_tag_dictionary in Hm. rewrite Hspan in Hm.
    destruct (mem (upper fmt) ["BIOES"; "BIO"]); [| discriminate].
    cbn [bind] in Hm. injection Hm as <-. cbn [label_dictionary].
    now rewrite fold_expand_add_unk. }
  assert (Hall' : Forall (fun s =>
            Forall (fun a => span_in_sentence (Sentence_len s) (fst a) = true)
              (gold_spans m s)
            /\ ForallOrdPairs (fun a b => disjoint_spans (fst a) (fst b))
                 (gold_spans m s)) sentences).
  { unfold gold_spans. now rewrite Hty. }
  destruct (gold_labels_batch_spec R m sentences Hps Hall')
    as [lss [Hgold Henc]].
  destruct (Forall2_In_left _ _ _ _ _ s Henc Hs) as [ls [Hls [_ [Hin _]]]].
  assert (Hsa : span_in_sentence (Sentence_len s) (fst a) = true).
  { rewrite Forall_forall in Hall. destruct (Hall s Hs) as [Hwf _].
    rewrite Forall_forall in Hwf. now apply Hwf. }
  assert (Hp : exists p, covers (fst a) p = true).
  { destruct (fst a) as [| t0 rest] eqn:Ea; [discriminate |].
    unfold span_in_sentence in Hsa.
    apply andb_prop in Hsa as [Hsa _]. apply andb_prop in Hsa as [Hpos _].
    apply Z.leb_le in Hpos. exists (Z.to_nat (idx t0 - 1)).
    unfold covers. cbn [existsb].
    replace (Z.of_nat (Z.to_nat (idx t0 - 1)) + 1)%Z with (idx t0) by lia.
    now rewrite Z.eqb_refl. }
  destruct Hp as [p Hp].
  assert (Ha' : In a (gold_spans m s)) by (unfold gold_spans; now rewrite Hty).
  specialize (Hin a p Ha' Hp).
  set (t := span_tag (tag_format m) (fst a) (l_value (snd a)) p) in *.
  assert (Ht : In t (List.concat lss)) by (eapply In_concat_nth; eassumption).
  assert (Hraise : raises (get_idx_for_item (label_dictionary m) t)).
  { unfold get_idx_for_item. rewrite index_of_None, Hunk.
    - exists IndexError. reflexivity.
    - rewrite Hitems. intros Hexp. apply Hnew.
      eapply prefixed_in_expanded_items; [| exact Hexp].
      apply span_tag_prefixed. }
  assert (Hfwd : forall inference return_features,
            raises (forward fw m sentences inference return_features)).
  { intros inference return_features. unfold forward.
    destruct (forward_logits fw m sentences) as [logits | e];
      [| exists e; reflexivity].
    cbn [bind]. rewrite Hgold. cbn [bind].
    destruct (map_r_raises _ _ _ _ _ Ht Hraise) as [e He].
    rewrite He. exists e. reflexivity. }
  split; [exact Hfwd |].
  unfold forward_loss. destruct sentences as [| s0 ss]; [contradiction |].
  cbn [List.length Nat.eqb].
  destruct (Hfwd false false) as [e He]. rewrite He. exists e. reflexivity.
Qed.

Lemma forward_unknown_gold_label_witness :
  exists m,
    DualEncoder_init (mkDictionary ["<unk>"; "person"] true true) "ner" "bio"
    = Ok m
    /\ (forall inference return_features,
          raises (forward constant_framework m [five_token_sentence]
                    inference return_features))
    /\ raises (forward_loss constant_framework m [five_token_sentence]).
Proof.
  apply (forward_unknown_gold_label Z constant_framework
           (mkDictionary ["<unk>"; "person"] true true) "ner" "bio"
           [five_token_sentence] five_token_sentence
           (firstn 1 five_tokens, mkLabel "ner" "X" 1%Z)).
  - reflexivity.
  - unfold get_items; simpl.
    repeat constructor; simpl; intuition discriminate.
  - left. reflexivity.
  - constructor; [| constructor]. split.
    + repeat constructor.
    + repeat constructor. intros p. unfold covers.
      cbn -[Z.eqb Z.add Z.of_nat].
      destruct (Z.eqb_spec 1 (Z.of_nat p + 1)); [| discriminate].
      intros _.
      destruct (Z.eqb_spec 3 (Z.of_nat p + 1)); [lia |].
      destruct (Z.eqb_spec 4 (Z.of_nat p + 1)); [lia |].
      destruct (Z.eqb_spec 5 (Z.of_nat p + 1)); [lia | reflexivity].
  - simpl. tauto.
  - simpl. tauto.
  - simpl. intuition discriminate.
Defined.

(** ** Attaching predictions *)

Lemma label_tokens_beyond (R : Type) (label_name : string) :
  forall (toks : list (Token R)) (preds : list (string * R)) (i : nat),
  nth_error preds i = None ->
  nth_error (label_tokens label_name toks preds) i = nth_error toks i.
Proof.
  induction toks as [| t0 toks IH]; intros preds i Hp; [reflexivity |].
  destruct preds as [| p preds]; [reflexivity |].
  destruct i as [| i]; [discriminate |]. simpl in *. now apply IH.
Qed.

(** Token-level mode, for one sentence: attaching predictions raises
    nothing, keeps the span labels and the number of tokens, gives a
    token whose predicted tag is neither "O" nor "_" that tag as one more
    label, and leaves every other token, also those without a prediction,
    as it was. *)
Theorem token_predictions_attached (R : Type) (fw : Framework R)
    (m : DualEncoder) (label_name : string) (force : bool)
    (s : Sentence R) (preds : list (string * R)) :
  predict_spans m = false \/ force = true ->
  exists s',
    add_predictions fw m label_name force s preds = Ok s'
    /\ span_annotations s' = span_annotations s
    /\ List.length (tokens s') = List.length (tokens s)
    /\ forall i t, nth_error (tokens s) i = Some t ->
         nth_error (tokens s') i
         = Some (match nth_error preds i with
                 | Some (tag, score) =>
                     if mem tag ["O"; "_"] then t
                     else Token_add_label t label_name tag score
                 | None => t
                 end).
Proof.
  intros Hmode. unfold add_predictions.
  assert (Hcond : predict_spans m && negb force = false)
    by (destruct Hmode as [-> | ->]; [reflexivity | apply andb_false_r]).
  rewrite Hcond. eexists. split; [reflexivity |]. cbn [span_annotations tokens].
  split; [reflexivity |]. split; [apply label_tokens_length |].
  intros i t Ht. destruct (nth_error preds i) as [[tag score] |] eqn:Ep.
  - now apply label_tokens_spec.
  - rewrite label_tokens_beyond by assumption. exact Ht.
Qed.

Lemma token_predictions_attached_witness :
  exists s',
    add_predictions constant_framework (span_model "BIO") "ner" true
      five_token_sentence
      [("B-X", 9%Z); ("O", 8%Z); ("_", 7%Z)] = Ok s'
    /\ span_annotations s' = span_annotations five_token_sentence
    /\ List.length (tokens s') = List.length (tokens five_token_sentence)
    /\ forall i t, nth_error (tokens five_token_sentence) i = Some t ->
         nth_error (tokens s') i
         = Some (match nth_error [("B-X", 9%Z); ("O", 8%Z); ("_", 7%Z)] i with
                 | Some (tag, score) =>
                     if mem tag ["O"; "_"] then t
                     else Token_add_label t "ner" tag score
                 | None => t
                 end).
Proof.
  apply (token_predictions_attached Z constant_framework (span_model "BIO")
           "ner" true five_token_sentence
           [("B-X", 9%Z); ("O", 8%Z); ("_", 7%Z)]).
  right. reflexivity.
Defined.

Lemma last_cons (A : Type) (rest : list A) : forall a d : A,
  last (a :: rest) d = last rest a.
Proof.
  induction rest as [| b rest IH]; intros a d; [reflexivity |].
  change (last (a :: b :: rest) d) with (last (b :: rest) d).
  now rewrite (IH b d), (IH b a).
Qed.

Lemma add_span_labels_spec (R : Type) (label_name : string)
    (spans : list (list nat * R * string)) : forall s : Sentence R,
  (forall sp, In sp spans -> fst (fst sp) <> []) ->
  for_each (add_span_label label_name) spans s
  = Ok (mkSentence (tokens s)
          (span_annotations s
           ++ map (fun sp : list nat * R * string =>
                     (firstn (last (fst (fst sp)) 0 + 1 - hd 0 (fst (fst sp)))
                        (skipn (hd 0 (fst (fst sp))) (tokens s)),
                      mkLabel label_name (snd sp) (snd (fst sp))))
               spans)%list).
Proof.
  induction spans as [| sp spans IH]; intros s Hne.
  - simpl. rewrite app_nil_r. now destruct s.
  - cbn [for_each]. destruct sp as [[positions score] value].
    assert (Hp : positions <> []) by (apply (Hne (positions, score, value)); now left).
    destruct positions as [| a rest]; [congruence |].
    unfold add_span_label at 1. unfold getitem, getitem_last.
    cbn [nth_error bind]. rewrite IH by (intros sp' Hsp'; apply Hne; now right).
    cbn [tokens span_annotations map fst snd hd].
    rewrite <- app_assoc. cbn [app].
    now rewrite (last_cons _ rest a 0).
Qed.

(** Span mode, for one sentence: when every decoded span names at least
    one token position, attaching predictions raises nothing, leaves the
    tokens as they are and appends one span label per decoded span, in
    the decoder's order, on the tokens from the span's first to its last
    position. *)
Theorem span_predictions_attached (R : Type) (fw : Framework R)
    (m : DualEncoder) (label_name : string) (s : Sentence R)
    (preds : list (string * R)) :
  predict_spans m = true ->
  (forall sp, In sp (get_spans_from_bio fw (map fst preds) (map snd preds)) ->
              fst (fst sp) <> []) ->
  exists s',
    add_predictions fw m label_name false s preds = Ok s'
    /\ tokens s' = tokens s
    /\ span_annotations s'
       = (span_annotations s
          ++ map (fun sp : list nat * R * string =>
                    (firstn (last (fst (fst sp)) 0 + 1 - hd 0 (fst (fst sp)))
                       (skipn (hd 0 (fst (fst sp))) (tokens s)),
                     mkLabel label_name (snd sp) (snd (fst sp))))
              (get_spans_from_bio fw (map fst preds) (map snd preds)))%list.
Proof.
  intros Hspan Hne. unfold add_predictions. rewrite Hspan. cbn [andb negb].
  rewrite add_span_labels_spec by assumption.
  eexists. split; [reflexivity |]. split; reflexivity.
Qed.

Lemma span_predictions_attached_witness :
  exists s',
    add_predictions one_span_framework (span_model "BIO") "ner" false
      five_token_sentence [("O", 1%Z)] = Ok s'
    /\ tokens s' = tokens five_token_sentence
    /\ span_annotations s'
       = (span_annotations five_token_sentence
          ++ map (fun sp : list nat * Z * string =>
                    (firstn (last (fst (fst sp)) 0 + 1 - hd 0 (fst (fst sp)))
                       (skipn (hd 0 (fst (fst sp)))
                          (tokens five_token_sentence)),
                     mkLabel "ner" (snd sp) (snd (fst sp))))
              (get_spans_from_bio one_span_framework
                 (map fst [("O", 1%Z)]) (map snd [("O", 1%Z)])))%list.
Proof.
  apply (span_predictions_attached Z one_span_framework (span_model "BIO")
           "ner" five_token_sentence [("O", 1%Z)]).
  - reflexivity.
  - intros sp [<- | []]. discriminate.
Defined.

(** ** More on the corpus selector *)

(** [get_corpus] hands back a corpus exactly for the names wnut_17,
    conll_03 and ontonotes and for fewnerd with the granularity fine or
    coarse; for the first three names the granularity plays no part. *)
Theorem get_corpus_returns_corpus (ds : Datasets)
    (corpus granularity : string) :
  ((exists c, get_corpus ds corpus granularity = Ok (Some c))
   <-> (corpus = "wnut_17" \/ corpus = "conll_03" \/ corpus = "ontonotes"
        \/ (corpus = "fewnerd"
            /\ (granularity = "fine" \/ granularity = "coarse"))))
  /\ (corpus <> "fewnerd" ->
      forall granularity',
        get_corpus ds corpus granularity' = get_corpus ds corpus granularity).
Proof.
  unfold get_corpus. split.
  - destruct (String.eqb_spec corpus "wnut_17") as [-> | H1].
    { split; [tauto | intros _; eexists; reflexivity]. }
    destruct (String.eqb_spec corpus "conll_03") as [-> | H2].
    { split; [tauto | intros _; eexists; reflexivity]. }
    destruct (String.eqb_spec corpus "ontonotes") as [-> | H3].
    { split; [tauto | intros _; eexists; reflexivity]. }
    destruct (String.eqb_spec corpus "fewnerd") as [-> | H4].
    + destruct (String.eqb_spec granularity "fine") as [-> | G1].
      { split; [tauto | intros _; eexists; reflexivity]. }
      destruct (String.eqb_spec granularity "coarse") as [-> | G2].
      { split; [tauto | intros _; eexists; reflexivity]. }
      split; [intros [c Hc]; discriminate |].
      intros [H | [H | [H | [_ [H | H]]]]]; try discriminate; congruence.
    + split; [intros [c Hc]; discriminate |].
      intros [H | [H | [H | [H _]]]]; congruence.
  - intros Hne granularity'. apply String.eqb_neq in Hne. rewrite Hne.
    reflexivity.
Qed.

Lemma get_corpus_returns_corpus_witness :
  ((exists c, get_corpus (listed_datasets []) "ontonotes" "" = Ok (Some c))
   <-> ("ontonotes" = "wnut_17" \/ "ontonotes" = "conll_03"
        \/ "ontonotes" = "ontonotes"
        \/ ("ontonotes" = "fewnerd" /\ ("" = "fine" \/ "" = "coarse"))))
  /\ ("ontonotes" <> "fewnerd" ->
      forall granularity',
        get_corpus (listed_datasets []) "ontonotes" granularity'
        = get_corpus (listed_datasets []) "ontonotes" "").
Proof. exact (get_corpus_returns_corpus (listed_datasets []) "ontonotes" ""). Defined.

Lemma valid_indices_spec (texts : list string) : forall (k i : nat),
  In i (valid_indices texts k)
  <-> exists t, nth_error texts (i - k) = Some t /\ (k <= i)%nat
                /\ contains "DOCSTART" t = false.
Proof.
  induction texts as [| t texts IH]; intros k i.
  - simpl. split; [tauto |]. intros [t [H _]]. destruct (i - k)%nat; discriminate.
  - cbn [valid_indices].
    assert (Hshift : forall u, (S k <= i)%nat ->
              (nth_error texts (i - S k) = Some u
               <-> nth_error (t :: texts) (i - k) = Some u)).
    { intros u Hle. replace (i - k)%nat with (S (i - S k)) by lia. tauto. }
    destruct (contains "DOCSTART" t) eqn:Ec.
    + rewrite IH. split.
      * intros [u [Hn [Hle Hu]]]. exists u. rewrite <- Hshift by lia.
        repeat split; trivial. lia.
      * intros [u [Hn [Hle Hu]]].
        destruct (Nat.eq_dec i k) as [-> | Hik].
        { rewrite Nat.sub_diag in Hn. injection Hn as <-. congruence. }
        exists u. rewrite Hshift by lia. repeat split; trivial. lia.
    + cbn [In]. rewrite IH. split.
      * intros [<- | [u [Hn [Hle Hu]]]].
        { exists t. rewrite Nat.sub_diag. repeat split; trivial. }
        exists u. rewrite <- Hshift by lia. repeat split; trivial. lia.
      * intros [u [Hn [Hle Hu]]].
        destruct (Nat.eq_dec i k) as [-> | Hik]; [now left | right].
        exists u. rewrite Hshift by lia. repeat split; trivial. lia.
Qed.

Lemma valid_indices_subset (texts : list string) : forall k : nat,
  flat_map (fun i => match nth_error texts (i - k) with
                     | Some t => [t]
                     | None => []
                     end) (valid_indices texts k)
  = filter (fun t => negb (contains "DOCSTART" t)) texts.
Proof.
  induction texts as [| t texts IH]; intros k; [reflexivity |].
  cbn [valid_indices filter].
  assert (Hshift : forall l,
            (forall i, In i l -> (S k <= i)%nat) ->
            flat_map (fun i => match nth_error (t :: texts) (i - k) with
                               | Some u => [u]
                               | None => []
                               end) l
            = flat_map (fun i => match nth_error texts (i - S k) with
                                 | Some u => [u]
                                 | None => []
                                 end) l).
  { induction l as [| i l IHl]; intros Hl; [reflexivity |].
    cbn [flat_map]. rewrite IHl by (intros j Hj; apply Hl; now right).
    assert (S k <= i)%nat by (apply Hl; now left).
    replace (i - k)%nat with (S (i - S k)) by lia. reflexivity. }
  assert (Hge : forall i, In i (valid_indices texts (S k)) -> (S k <= i)%nat).
  { intros i Hi. apply valid_indices_spec in Hi as [u [_ [Hle _]]]. exact Hle. }
  destruct (contains "DOCSTART" t); cbn [negb].
  - now rewrite Hshift, IH.
  - cbn [flat_map]. rewrite Nat.sub_diag. cbn [nth_error app].
    now rewrite Hshift, IH.
Qed.

(** The CoNLL-03 branch keeps exactly the training sentences whose text
    does not contain DOCSTART: the indices handed to the subset are those
    of such sentences, and on corpora given as lists of texts the new
    training split is the old one filtered, in the old order. *)
Theorem conll_03_drops_document_separators (conll_train : list string)
    (granularity : string) :
  exists c,
    get_corpus (listed_datasets conll_train) "conll_03" granularity
    = Ok (Some c)
    /\ listed_train c
       = filter (fun t => negb (contains "DOCSTART" t)) conll_train
    /\ name_map c = conll_03_label_name_map
    /\ forall i, In i (valid_indices conll_train 0)
                 <-> exists t, nth_error conll_train i = Some t
                               /\ contains "DOCSTART" t = false.
Proof.
  eexists. split; [reflexivity |]. cbn. split; [| split; [reflexivity |]].
  - rewrite <- (valid_indices_subset conll_train 0).
    apply flat_map_ext. intros i. now rewrite Nat.sub_0_r.
  - intros i. rewrite valid_indices_spec, Nat.sub_0_r. split.
    + intros [t [Hn [_ Hc]]]. now exists t.
    + intros [t [Hn Hc]]. exists t. repeat split; trivial. lia.
Qed.

Example conll_03_example :
  option_map listed_train
    (match get_corpus
             (listed_datasets ["-DOCSTART- -X- O O"; "EU rejects German call";
                               "-DOCSTART-"; "Peter Blackburn"])
             "conll_03" "" with
     | Ok c => c
     | Raise _ => None
     end)
  = Some ["EU rejects German call"; "Peter Blackburn"].
Proof. reflexivity. Qed.

Lemma verbalize_hyphen_free (l : string) :
  hyphen_free l = true ->
  verbalize ("B-" ++ l) = Some ("begin " ++ l)
  /\ verbalize ("I-" ++ l) = Some ("inside " ++ l).
Proof.
  intros H. unfold verbalize, startswith. simpl.
  rewrite (split_hyphen_free l H), prefix_empty. split; reflexivity.
Qed.

(** Every label name that the selector's renaming tables produce is free
    of hyphens, so its "B-" and "I-" tags are verbalized with the whole
    name: "begin <name>" and "inside <name>". *)
Theorem corpus_label_names_verbalize (label_name_map : LabelNameMap)
    (raw name : string) :
  In label_name_map
    [wnut_17_label_name_map; conll_03_label_name_map;
     ontonotes_label_name_map; fewnerd_fine_label_name_map;
     fewnerd_coarse_label_name_map] ->
  In (raw, name) label_name_map ->
  verbalize ("B-" ++ name) = Some ("begin " ++ name)
  /\ verbalize ("I-" ++ name) = Some ("inside " ++ name).
Proof.
  intros Hmap Hin. apply verbalize_hyphen_free.
  assert (Hall : forallb (fun lm : LabelNameMap =>
                            forallb (fun kv => hyphen_free (snd kv)) lm)
                   [wnut_17_label_name_map; conll_03_label_name_map;
                    ontonotes_label_name_map; fewnerd_fine_label_name_map;
                    fewnerd_coarse_label_name_map] = true)
    by (vm_compute; reflexivity).
  rewrite forallb_forall in Hall. specialize (Hall _ Hmap).
  rewrite forallb_forall in Hall. exact (Hall _ Hin).
Qed.

Lemma corpus_label_names_verbalize_witness :
  verbalize ("B-" ++ "creative work") = Some ("begin " ++ "creative work")
  /\ verbalize ("I-" ++ "creative work") = Some ("inside " ++ "creative work").
Proof.
  apply (corpus_label_names_verbalize wnut_17_label_name_map
           "creative-work" "creative work").
  - simpl. tauto.
  - simpl. tauto.
Defined.

(** ** The fine-tuning script *)

(** With a corpus name that the selector does not know, [main] raises the
    selector's exception before it loads the tagger or trains: setting
    the device is all it has done. *)
Theorem main_unknown_corpus (R : Type) (format_float : R -> string)
    (milli : R) (ds : Datasets) (args : LPFT.Args R) :
  LPFT.corpus args <> "wnut_17" -> LPFT.corpus args <> "conll_03" ->
  LPFT.corpus args <> "ontonotes" -> LPFT.corpus args <> "fewnerd" ->
  LPFT.main format_float milli ds args
  = ((if LPFT.cuda args
      then [LPFT.SetDevice
              ("cuda:" ++ LPFT.format_int (LPFT.cuda_device args))]
      else []),
     Raise (Exception "no valid corpus.")).
Proof.
  intros H1 H2 H3 H4. unfold LPFT.main, get_corpus.
  apply String.eqb_neq in H1, H2, H3, H4.
  now rewrite H1, H2, H3, H4.
Qed.

Lemma main_unknown_corpus_witness :
  LPFT.main (fun _ : Z => "1e-05") 0%Z (listed_datasets [])
    (LPFT.default_args "model.pt" "conll_2000")
  = ([LPFT.SetDevice "cuda:2"], Raise (Exception "no valid corpus.")).
Proof.
  apply (main_unknown_corpus Z (fun _ : Z => "1e-05") 0%Z (listed_datasets [])
           (LPFT.default_args "model.pt" "conll_2000")); discriminate.
Defined.

(** For the corpus fewnerd and a granularity that is neither fine nor
    coarse, such as the parser's default, the empty string, the selector
    raises nothing and [main] goes on to the trainer: after setting the
    device it calls the tagger's loader and then the trainer with [None]
    in the place of a corpus. *)
Theorem main_fewnerd_trains_on_None (R : Type) (format_float : R -> string)
    (milli : R) (ds : Datasets) (args : LPFT.Args R) :
  LPFT.corpus args = "fewnerd" ->
  LPFT.fewnerd_granularity args <> "fine" ->
  LPFT.fewnerd_granularity args <> "coarse" ->
  exists call,
    fst (LPFT.main format_float milli ds args)
    = ((if LPFT.cuda args
        then [LPFT.SetDevice
                ("cuda:" ++ LPFT.format_int (LPFT.cuda_device args))]
        else [])
       ++ [LPFT.LoadTagger (LPFT.pretrained_model_path args);
           LPFT.Train None call])%list
    /\ LPFT.learning_rate call = LPFT.lr args
    /\ LPFT.train_with_dev call = LPFT.early_stopping args.
Proof.
  intros Hc H1 H2. unfold LPFT.main, get_corpus. rewrite Hc.
  apply String.eqb_neq in H1, H2. cbn [String.eqb Ascii.eqb Bool.eqb].
  rewrite H1, H2. eexists. split; [reflexivity |].
  split; reflexivity.
Qed.

Lemma main_fewnerd_trains_on_None_witness :
  exists call,
    fst (LPFT.main (fun _ : Z => "1e-05") 0%Z (listed_datasets [])
           (LPFT.default_args "model.pt" "fewnerd"))
    = ((if LPFT.cuda (LPFT.default_args "model.pt" "fewnerd")
        then [LPFT.SetDevice
                ("cuda:"
                 ++ LPFT.format_int
                      (LPFT.cuda_device
                         (LPFT.default_args "model.pt" "fewnerd")))]
        else [])
       ++ [LPFT.LoadTagger
             (LPFT.pretrained_model_path
                (LPFT.default_args "model.pt" "fewnerd"));
           LPFT.Train None call])%list
    /\ LPFT.learning_rate call
       = LPFT.lr (LPFT.default_args "model.pt" "fewnerd")
    /\ LPFT.train_with_dev call
       = LPFT.early_stopping (LPFT.default_args "model.pt" "fewnerd").
Proof.
  apply (main_fewnerd_trains_on_None Z (fun _ : Z => "1e-05") 0%Z
           (listed_datasets []) (LPFT.default_args "model.pt" "fewnerd"));
    [reflexivity | discriminate | discriminate].
Defined.

(** ** Persisted state *)

Lemma upper_ascii_idempotent (c : ascii) :
  upper_ascii (upper_ascii c) = upper_ascii c.
Proof.
  destruct c as [b0 b1 b2 b3 b4 b5 b6 b7].
  destruct b0, b1, b2, b3, b4, b5, b6, b7; reflexivity.
Qed.

Lemma upper_idempotent (s : string) : upper (upper s) = upper s.
Proof.
  induction s as [| c s IH]; simpl; [reflexivity |].
  now rewrite upper_ascii_idempotent, IH.
Qed.

Lemma add_item_span_labels (d : Dictionary) (x : string) :
  span_labels (add_item d x) = span_labels d.
Proof. unfold add_item. now destruct (mem x (idx2item d)). Qed.

Lemma fold_expand_span_labels (fmt : string) (ls : list string) :
  forall d, span_labels (fold_left (expand_label fmt) ls d) = span_labels d.
Proof.
  induction ls as [| l ls IH]; intros d; simpl; [reflexivity |].
  rewrite IH. unfold expand_label.
  destruct (String.eqb l unk); [reflexivity |].
  destruct (String.eqb fmt "BIOES"), (String.eqb fmt "BIO");
    now rewrite ?add_item_span_labels.
Qed.

(** A model rebuilt from its own persisted label space has the same label
    dictionary, verbalized labels, tag set size, format and tag type, but
    it is always a token-level model: the label dictionary it is rebuilt
    from is not marked span-level, so a span model does not come back as
    one. *)
Theorem reload_label_space (d : Dictionary) (ty fmt : string)
    (m : DualEncoder) :
  DualEncoder_init d ty fmt = Ok m ->
  exists m',
    _init_model_with_state_dict (_get_state_dict m) = Ok m'
    /\ label_dictionary m' = label_dictionary m
    /\ idx2verbalized_label m' = idx2verbalized_label m
    /\ tagset_size m' = tagset_size m
    /\ tag_format m' = tag_format m
    /\ tag_type m' = tag_type m
    /\ predict_spans m' = false.
Proof.
  intros Hinit.
  assert (Hflat : span_labels (label_dictionary m) = false
                  /\ tag_format m = upper fmt).
  { revert Hinit.
    unfold DualEncoder_init, _init_verbalizers_and_tag_dictionary.
    destruct (span_labels d) eqn:Hspan.
    - destruct (mem (upper fmt) ["BIOES"; "BIO"]); [| discriminate].
      cbn [bind]. intros H. injection H as <-. cbn.
      split; [now rewrite fold_expand_span_labels | reflexivity].
    - cbn [bind]. intros H. injection H as <-. cbn. now split. }
  destruct Hflat as [Hflat Hfmt].
  destruct (init_verbalized_labels d ty fmt m Hinit) as [Hverb Hsize].
  unfold _init_model_with_state_dict, _get_state_dict, DualEncoder_init,
    _init_verbalizers_and_tag_dictionary.
  cbn [state_tag_dictionary state_tag_type state_tag_format].
  rewrite Hflat. cbn [bind]. eexists. split; [reflexivity |]. cbn.
  rewrite Hverb, Hsize, Hfmt, upper_idempotent.
  repeat split; reflexivity.
Qed.

Lemma reload_label_space_witness :
  exists m',
    _init_model_with_state_dict
      (_get_state_dict
         (mkDualEncoder "ner" "BIO"
            (mkDictionary ["O"; "B-person"; "I-person"] false false) true
            [(0, "other"); (1, "begin person"); (2, "inside person")] 3))
    = Ok m'
    /\ label_dictionary m'
       = label_dictionary
           (mkDualEncoder "ner" "BIO"
              (mkDictionary ["O"; "B-person"; "I-person"] false false) true
              [(0, "other"); (1, "begin person"); (2, "inside person")] 3)
    /\ idx2verbalized_label m'
       = idx2verbalized_label
           (mkDualEncoder "ner" "BIO"
              (mkDictionary ["O"; "B-person"; "I-person"] false false) true
              [(0, "other"); (1, "begin person"); (2, "inside person")] 3)
    /\ tagset_size m'
       = tagset_size
           (mkDualEncoder "ner" "BIO"
              (mkDictionary ["O"; "B-person"; "I-person"] false false) true
              [(0, "other"); (1, "begin person"); (2, "inside person")] 3)
    /\ tag_format m'
       = tag_format
           (mkDualEncoder "ner" "BIO"
              (mkDictionary ["O"; "B-person"; "I-person"] false false) true
              [(0, "other"); (1, "begin person"); (2, "inside person")] 3)
    /\ tag_type m'
       = tag_type
           (mkDualEncoder "ner" "BIO"
              (mkDictionary ["O"; "B-person"; "I-person"] false false) true
              [(0, "other"); (1, "begin person"); (2, "inside person")] 3)
    /\ predict_spans m' = false.
Proof.
  apply (reload_label_space (mkDictionary ["<unk>"; "person"] true true)
           "ner" "bio").
  reflexivity.
Defined.

(** ** Printing predictions *)

Lemma filter_other_type (R : Type) (ty : string) (ls : list (Label R)) :
  filter (fun l => String.eqb (l_typename l) ty)
    (filter (fun l => negb (String.eqb (l_typename l) ty)) ls) = [].
Proof.
  induction ls as [| l ls IH]; simpl; [reflexivity |].
  destruct (String.eqb (l_typename l) ty) eqn:E; simpl; [exact IH |].
  now rewrite E.
Qed.

Lemma filter_kept_type (R : Type) (ty ty' : string) (ls : list (Label R)) :
  ty' <> ty ->
  filter (fun l => String.eqb (l_typename l) ty')
    (filter (fun l => negb (String.eqb (l_typename l) ty)) ls)
  = filter (fun l => String.eqb (l_typename l) ty') ls.
Proof.
  intros Hne. induction ls as [| l ls IH]; simpl; [reflexivity |].
  destruct (String.eqb_spec (l_typename l) ty) as [E | E]; simpl.
  - destruct (String.eqb_spec (l_typename l) ty') as [E' | E'];
      [congruence | exact IH].
  - now rewrite IH.
Qed.

Lemma set_label_value (R : Type) (one : R) (ty v z : string) (t : Token R) :
  get_label_value (Token_set_label one ty v t) ty z = v.
Proof.
  unfold get_label_value, Token_set_label. cbn [t_labels].
  rewrite filter_app, filter_other_type. simpl.
  now rewrite String.eqb_refl.
Qed.

Lemma set_label_other (R : Type) (one : R) (ty ty' v z : string)
    (t : Token R) :
  ty' <> ty ->
  get_label_value (Token_set_label one ty v t) ty' z = get_label_value t ty' z.
Proof.
  intros Hne. unfold get_label_value, Token_set_label. cbn [t_labels].
  rewrite filter_app, filter_kept_type by assumption. simpl.
  apply not_eq_sym in Hne. apply String.eqb_neq in Hne. rewrite Hne.
  now rewrite app_nil_r.
Qed.

(** What marking a span keeps, whatever the span: the number of tokens
    and, token by token, position, text and the labels of other types. *)
Lemma mark_span_keeps (R : Type) (one : R) (ty v : string) (span : Span R) :
  forall (prefix : string) (toks : list (Token R)) (p : nat) (t : Token R),
  nth_error toks p = Some t ->
  exists t',
    nth_error (mark_span one ty v prefix span toks) p = Some t'
    /\ idx t' = idx t /\ text t' = text t
    /\ forall ty' z, ty' <> ty ->
         get_label_value t' ty' z = get_label_value t ty' z.
Proof.
  induction span as [| t0 rest IH]; intros prefix toks p t Ht.
  - exists t. repeat split; trivial.
  - cbn [mark_span].
    set (t1 := if (idx t =? idx t0)%Z
               then Token_set_label one ty (prefix ++ v) t else t).
    assert (H1 : nth_error (set_label_at one ty (prefix ++ v) (idx t0) toks) p
                 = Some t1).
    { unfold set_label_at. rewrite nth_error_map, Ht. reflexivity. }
    destruct (IH "I-" _ p t1 H1) as [t' [Hn [Hi [Hx Hl]]]].
    exists t'. split; [exact Hn |].
    assert (Hi1 : idx t1 = idx t) by (unfold t1; now destruct (idx t =? idx t0)%Z).
    assert (Hx1 : text t1 = text t) by (unfold t1; now destruct (idx t =? idx t0)%Z).
    split; [congruence |]. split; [congruence |].
    intros ty' z Hne. rewrite (Hl ty' z Hne). unfold t1.
    destruct (idx t =? idx t0)%Z; [now apply set_label_other | reflexivity].
Qed.

Lemma mark_span_length (R : Type) (one : R) (ty v : string) (span : Span R) :
  forall (prefix : string) (toks : list (Token R)),
  List.length (mark_span one ty v prefix span toks) = List.length toks.
Proof.
  induction span as [| t0 rest IH]; intros prefix toks; [reflexivity |].
  cbn [mark_span]. rewrite IH. unfold set_label_at. apply length_map.
Qed.

Lemma mark_spans_keeps (R : Type) (one : R) (ty : string)
    (anns : list (Span R * Label R)) :
  forall (toks : list (Token R)),
  List.length (mark_spans one ty anns toks) = List.length toks
  /\ forall (p : nat) (t : Token R),
       nth_error toks p = Some t ->
       exists t',
         nth_error (mark_spans one ty anns toks) p = Some t'
         /\ idx t' = idx t /\ text t' = text t
         /\ forall ty' z, ty' <> ty ->
              get_label_value t' ty' z = get_label_value t ty' z.
Proof.
  induction anns as [| a anns IH]; intros toks.
  - split; [reflexivity |]. intros p t Ht. exists t. repeat split; trivial.
  - unfold mark_spans in *. cbn [fold_left].
    destruct (IH (mark_span one ty (l_value (snd a)) "B-" (fst a) toks))
      as [Hlen Hkeep].
    split; [now rewrite Hlen, mark_span_length |].
    intros p t Ht.
    destruct (mark_span_keeps R one ty (l_value (snd a)) (fst a) "B-" toks p t Ht)
      as [t1 [H1 [Hi1 [Hx1 Hl1]]]].
    destruct (Hkeep p t1 H1) as [t' [Hn [Hi [Hx Hl]]]].
    exists t'. split; [exact Hn |]. split; [congruence |]. split; [congruence |].
    intros ty' z Hne. now rewrite (Hl ty' z Hne), (Hl1 ty' z Hne).
Qed.

(** [_print_predictions] returns one line per token and one blank line
    per sentence, in either mode, and changes neither the number of the
    sentences nor that of their tokens. *)
Theorem print_predictions_line_count (R : Type) (one : R) (m : DualEncoder)
    (batch : list (Sentence R)) (gold_label_type : string) :
  List.length (snd (_print_predictions one m batch gold_label_type))
  = list_sum (map Sentence_len batch) + List.length batch
  /\ map Sentence_len (fst (_print_predictions one m batch gold_label_type))
     = map Sentence_len batch.
Proof.
  unfold _print_predictions. cbn [fst snd].
  set (f := if predict_spans m then print_spans one gold_label_type
            else print_tokens gold_label_type).
  assert (Hf : forall s, List.length (snd (f s)) = Sentence_len s + 1
                         /\ Sentence_len (fst (f s)) = Sentence_len s).
  { intros s. unfold f. destruct (predict_spans m).
    - unfold print_spans. cbn [fst snd]. unfold Sentence_len. cbn [tokens].
      rewrite length_app, length_map.
      destruct (mark_spans_keeps R one "predicted_bio"
                  (get_labels s "predicted")
                  (mark_spans one "gold_bio" (get_labels s gold_label_type)
                     (map (fun t => Token_set_label one "predicted_bio" "O"
                                      (Token_set_label one "gold_bio" "O" t))
                        (tokens s)))) as [L2 _].
      destruct (mark_spans_keeps R one "gold_bio"
                  (get_labels s gold_label_type)
                  (map (fun t => Token_set_label one "predicted_bio" "O"
                                   (Token_set_label one "gold_bio" "O" t))
                     (tokens s))) as [L1 _].
      rewrite L2, L1, length_map. split; reflexivity.
    - unfold print_tokens. cbn [fst snd]. unfold Sentence_len.
      rewrite length_app, length_map. split; reflexivity. }
  induction batch as [| s ss [IH1 IH2]]; [split; reflexivity |].
  cbn [map List.concat list_sum List.length].
  destruct (Hf s) as [H1 H2].
  rewrite length_app, H1, IH1, H2, IH2.
  change (list_sum (Sentence_len s :: map Sentence_len ss))
    with (Sentence_len s + list_sum (map Sentence_len ss)).
  split; [lia | reflexivity].
Qed.

Lemma numbered_keeps (R : Type) (toks toks' : list (Token R)) :
  numbered toks -> List.length toks' = List.length toks ->
  (forall p t, nth_error toks p = Some t ->
     exists t', nth_error toks' p = Some t' /\ idx t' = idx t) ->
  numbered toks'.
Proof.
  intros Hnum Hlen Hkeep p t' Ht'.
  destruct (nth_error toks p) as [t |] eqn:Et.
  - destruct (Hkeep p t Et) as [t'' [Hn Hi]].
    rewrite Ht' in Hn. injection Hn as <-. rewrite Hi. now apply Hnum.
  - apply nth_error_None in Et.
    assert (nth_error toks' p <> None) by congruence.
    apply nth_error_Some in H. lia.
Qed.

(** Marking a span of consecutive tokens of a numbered sentence: the
    first token of the span gets the running prefix, the others "I-". *)
Lemma mark_span_consecutive (R : Type) (one : R) (ty v : string)
    (span : Span R) :
  forall (prefix : string) (z : Z) (toks : list (Token R)) (p : nat)
         (t : Token R),
  numbered toks -> consecutive_from z span = true ->
  nth_error toks p = Some t ->
  exists t',
    nth_error (mark_span one ty v prefix span toks) p = Some t'
    /\ get_label_value t' ty "O"
       = if covers span p
         then (if (Z.of_nat p + 1 =? z)%Z then prefix ++ v else "I-" ++ v)
         else get_label_value t ty "O".
Proof.
  induction span as [| t0 rest IH]; intros prefix z toks p t Hnum Hcons Ht.
  - exists t. split; [exact Ht | reflexivity].
  - cbn [consecutive_from] in Hcons. apply andb_prop in Hcons as [Hz Hrest].
    apply Z.eqb_eq in Hz. cbn [mark_span].
    set (toks1 := set_label_at one ty (prefix ++ v) (idx t0) toks).
    set (t1 := if (idx t =? idx t0)%Z
               then Token_set_label one ty (prefix ++ v) t else t).
    assert (H1 : nth_error toks1 p = Some t1).
    { unfold toks1, set_label_at. rewrite nth_error_map, Ht. reflexivity. }
    assert (Hnum1 : numbered toks1).
    { apply (numbered_keeps R toks); trivial.
      - unfold toks1, set_label_at. apply length_map.
      - intros q u Hu. unfold toks1, set_label_at.
        rewrite nth_error_map, Hu. cbn [option_map]. eexists.
        split; [reflexivity |]. now destruct (idx u =? idx t0)%Z. }
    destruct (IH "I-" (z + 1)%Z toks1 p t1 Hnum1 Hrest H1) as [t' [Hn Hl]].
    exists t'. split; [exact Hn |]. rewrite Hl.
    pose proof (Hnum p t Ht) as Hp.
    unfold covers at 2. cbn [existsb]. fold (covers rest p).
    rewrite (covers_consecutive R p rest (z + 1)%Z Hrest).
    unfold t1. rewrite Hz, Hp.
    destruct (Z.eqb_spec (Z.of_nat p + 1) z) as [E | E].
    + rewrite E, Z.eqb_refl.
      assert (Hle : (z + 1 <=? z)%Z = false) by (apply Z.leb_gt; lia).
      rewrite Hle. cbn [andb orb]. apply set_label_value.
    + assert (Hne : (z =? Z.of_nat p + 1)%Z = false)
        by (apply Z.eqb_neq; congruence).
      rewrite Hne. cbn [orb].
      destruct ((z + 1 <=? Z.of_nat p + 1)
                && (Z.of_nat p + 1 <? z + 1 + Z.of_nat (List.length rest)))%Z;
        [| reflexivity].
      now destruct (Z.of_nat p + 1 =? z + 1)%Z.
Qed.

Lemma span_tag_BIO (R : Type) (span : Span R) (v : string) (p : nat) :
  span_tag "BIO" span v p
  = if (Z.of_nat p + 1 =? first_idx span)%Z then "B-" ++ v else "I-" ++ v.
Proof. reflexivity. Qed.

(** Marking all spans of a sentence, when they lie inside it and do not
    overlap. *)
Lemma mark_spans_disjoint (R : Type) (one : R) (ty : string) (len : nat)
    (anns : list (Span R * Label R)) :
  forall (toks : list (Token R)) (p : nat) (t : Token R),
  numbered toks ->
  Forall (fun a => span_in_sentence len (fst a) = true) anns ->
  ForallOrdPairs (fun a b => disjoint_spans (fst a) (fst b)) anns ->
  nth_error toks p = Some t ->
  exists t',
    nth_error (mark_spans one ty anns toks) p = Some t'
    /\ (forall a, In a anns -> covers (fst a) p = true ->
          get_label_value t' ty "O"
          = span_tag "BIO" (fst a) (l_value (snd a)) p)
    /\ ((forall a, In a anns -> covers (fst a) p = false) ->
        get_label_value t' ty "O" = get_label_value t ty "O").
Proof.
  induction anns as [| a anns IH]; intros toks p t Hnum Hwf Hdis Ht.
  - exists t. split; [exact Ht |]. split; [intros a [] | reflexivity].
  - inversion Hwf as [| ? ? Ha Hwf']; subst.
    inversion Hdis as [| ? ? Hhead Hdis']; subst.
    unfold mark_spans. cbn [fold_left]. fold (mark_spans one ty anns).
    set (toks1 := mark_span one ty (l_value (snd a)) "B-" (fst a) toks).
    assert (Hcons : consecutive_from (first_idx (fst a)) (fst a) = true).
    { destruct (fst a) as [| t0 rest]; [discriminate |].
      unfold span_in_sentence in Ha. apply andb_prop in Ha as [Ha _].
      now apply andb_prop in Ha as [_ Ha]. }
    destruct (mark_span_consecutive R one ty (l_value (snd a)) (fst a) "B-"
                (first_idx (fst a)) toks p t Hnum Hcons Ht)
      as [t1 [H1 Hl1]].
    assert (Hnum1 : numbered toks1).
    { apply (numbered_keeps R toks); trivial.
      - apply mark_span_length.
      - intros q u Hu.
        destruct (mark_span_keeps R one ty (l_value (snd a)) (fst a) "B-"
                    toks q u Hu) as [u' [Hn [Hi _]]].
        exists u'. now split. }
    destruct (IH toks1 p t1 Hnum1 Hwf' Hdis' H1) as [t' [Hn [Hin Hout]]].
    exists t'. split; [exact Hn |]. split.
    + intros a' [<- | Ha'] Hcov.
      * rewrite Hout, Hl1, Hcov; [now rewrite span_tag_BIO |].
        intros b Hb. rewrite Forall_forall in Hhead.
        now apply (Hhead b Hb p).
      * now apply Hin.
    + intros Hnone. rewrite Hout, Hl1.
      * now rewrite (Hnone a (or_introl eq_refl)).
      * intros b Hb. apply Hnone. now right.
Qed.

Lemma covers_in_sentence (R : Type) (len : nat) (span : Span R) (p : nat) :
  span_in_sentence len span = true -> covers span p = true -> (p < len)%nat.
Proof.
  intros Hwf Hcov. destruct span as [| t0 rest]; [discriminate |].
  unfold span_in_sentence in Hwf.
  apply andb_prop in Hwf as [Hwf Hend]. apply andb_prop in Hwf as [Hpos Hcons].
  apply Z.leb_le in Hpos, Hend.
  rewrite (covers_consecutive R p _ _ Hcons) in Hcov.
  apply andb_prop in Hcov as [H1 H2].
  apply Z.leb_le in H1. apply Z.ltb_lt in H2. lia.
Qed.

(** In span mode the gold column of the printed lines is the BIO encoding
    of the gold spans, whatever the format of the model: for a sentence
    with numbered tokens and gold spans that lie inside it and do not
    overlap, line [p] reads "<text> <gold> <predicted>" where <gold> is
    the tag that [_get_gold_labels] gives position [p] under the BIO
    format. *)
Theorem print_gold_column_is_BIO (R : Type) (one : R) (m m' : DualEncoder)
    (s : Sentence R) (gold_label_type : string) :
  predict_spans m = true ->
  predict_spans m' = true -> tag_format m' = "BIO" ->
  tag_type m' = gold_label_type ->
  numbered (tokens s) ->
  Forall (fun a => span_in_sentence (Sentence_len s) (fst a) = true)
    (get_labels s gold_label_type) ->
  ForallOrdPairs (fun a b => disjoint_spans (fst a) (fst b))
    (get_labels s gold_label_type) ->
  exists gold,
    _get_gold_labels m' [s] = Ok [gold]
    /\ forall p t, nth_error (tokens s) p = Some t ->
         exists g predicted,
           nth_error gold p = Some g
           /\ nth_error (snd (_print_predictions one m [s] gold_label_type)) p
              = Some (text t ++ " " ++ g ++ " " ++ predicted ++ newline).
Proof.
  intros Hm Hm' Hfmt Hty Hnum Hwf Hdis.
  assert (Hgs : gold_spans m' s = get_labels s gold_label_type)
    by (unfold gold_spans; now rewrite Hty).
  destruct (sentence_gold_labels_spec R m' s) as [gold [Egold Henc]];
    [now rewrite Hgs | now rewrite Hgs |].
  exists gold. split.
  { unfold _get_gold_labels. rewrite Hm'. cbn [map_r]. now rewrite Egold. }
  set (toks0 := map (fun t => Token_set_label one "predicted_bio" "O"
                                (Token_set_label one "gold_bio" "O" t))
                  (tokens s)).
  set (toks1 := mark_spans one "gold_bio" (get_labels s gold_label_type) toks0).
  set (toks2 := mark_spans one "predicted_bio" (get_labels s "predicted") toks1).
  assert (Hlines : snd (_print_predictions one m [s] gold_label_type)
                   = (map (eval_line "gold_bio" "predicted_bio") toks2
                      ++ [newline])%list).
  { unfold _print_predictions. rewrite Hm. cbn. now rewrite app_nil_r. }
  assert (Hnum0 : numbered toks0).
  { apply (numbered_keeps R (tokens s)); trivial.
    - unfold toks0. apply length_map.
    - intros q u Hu. unfold toks0. rewrite nth_error_map, Hu.
      eexists. split; reflexivity. }
  (* the gold labels of the printed tokens are an encoding of the spans *)
  assert (Hcol : forall p t, nth_error (tokens s) p = Some t ->
            exists t2,
              nth_error toks2 p = Some t2 /\ text t2 = text t
              /\ (forall a, In a (get_labels s gold_label_type) ->
                    covers (fst a) p = true ->
                    get_label_value t2 "gold_bio" "O"
                    = span_tag "BIO" (fst a) (l_value (snd a)) p)
              /\ ((forall a, In a (get_labels s gold_label_type) ->
                     covers (fst a) p = false) ->
                  get_label_value t2 "gold_bio" "O" = "O")).
  { intros p t Ht.
    set (t0 := Token_set_label one "predicted_bio" "O"
                 (Token_set_label one "gold_bio" "O" t)).
    assert (H0 : nth_error toks0 p = Some t0)
      by (unfold toks0; now rewrite nth_error_map, Ht).
    destruct (mark_spans_disjoint R one "gold_bio" (Sentence_len s)
                (get_labels s gold_label_type) toks0 p t0 Hnum0 Hwf Hdis H0)
      as [t1 [H1 [Hin Hout]]].
    destruct (mark_spans_keeps R one "gold_bio"
                (get_labels s gold_label_type) toks0) as [_ Hk1].
    destruct (Hk1 p t0 H0) as [t1' [H1' [_ [Hx1 _]]]].
    rewrite H1 in H1'. injection H1' as <-.
    destruct (mark_spans_keeps R one "predicted_bio"
                (get_labels s "predicted") toks1) as [_ Hk2].
    destruct (Hk2 p t1 H1) as [t2 [H2 [_ [Hx2 Hl2]]]].
    assert (Hg : get_label_value t2 "gold_bio" "O"
                 = get_label_value t1 "gold_bio" "O")
      by (apply Hl2; discriminate).
    exists t2. split; [exact H2 |]. split; [now rewrite Hx2, Hx1 |]. split.
    - intros a Ha Hcov. rewrite Hg. now apply Hin.
    - intros Hnone. rewrite Hg, (Hout Hnone). unfold t0.
      rewrite set_label_other by discriminate. apply set_label_value. }
  intros p t Ht. destruct (Hcol p t Ht) as [t2 [H2 [Hx [Hin Hout]]]].
  assert (Hp : (p < Sentence_len s)%nat).
  { unfold Sentence_len. apply nth_error_Some. congruence. }
  destruct Henc as [L [Ein Eout]]. rewrite Hgs, Hfmt in Ein. rewrite Hgs in Eout.
  assert (Hg : nth_error gold p = Some (get_label_value t2 "gold_bio" "O")).
  { destruct (existsb (fun a => covers (fst a) p)
                (get_labels s gold_label_type)) eqn:E.
    - apply existsb_exists in E as [a [Ha Hcov]].
      now rewrite (Ein a p Ha Hcov), (Hin a Ha Hcov).
    - assert (Hnone : forall a, In a (get_labels s gold_label_type) ->
                                covers (fst a) p = false).
      { intros a Ha. destruct (covers (fst a) p) eqn:Ec; [| reflexivity].
        assert (existsb (fun a => covers (fst a) p)
                  (get_labels s gold_label_type) = true)
          by (apply existsb_exists; now exists a).
        congruence. }
      now rewrite (Eout p Hp Hnone), (Hout Hnone). }
  exists (get_label_value t2 "gold_bio" "O"),
         (get_label_value t2 "predicted_bio" "O").
  split; [exact Hg |]. rewrite Hlines.
  rewrite nth_error_app1.
  - rewrite nth_error_map, H2. cbn [option_map]. unfold eval_line.
    now rewrite Hx.
  - rewrite length_map. apply nth_error_Some. congruence.
Qed.

Lemma print_gold_column_is_BIO_witness :
  exists gold,
    _get_gold_labels (span_model "BIO") [five_token_sentence] = Ok [gold]
    /\ forall p t, nth_error (tokens five_token_sentence) p = Some t ->
         exists g predicted,
           nth_error gold p = Some g
           /\ nth_error
                (snd (_print_predictions 1%Z (span_model "BIOES")
                        [five_token_sentence] "ner")) p
              = Some (text t ++ " " ++ g ++ " " ++ predicted ++ newline).
Proof.
  apply (print_gold_column_is_BIO Z 1%Z (span_model "BIOES")
           (span_model "BIO") five_token_sentence "ner").
  - reflexivity.
  - reflexivity.
  - reflexivity.
  - reflexivity.
  - intros p t Ht.
    do 5 (destruct p as [| p]; [injection Ht as <-; reflexivity |]).
    destruct p; discriminate.
  - repeat constructor.
  - repeat constructor. intros p. unfold covers.
    cbn -[Z.eqb Z.add Z.of_nat].
    destruct (Z.eqb_spec 1 (Z.of_nat p + 1)); [| discriminate].
    intros _.
    destruct (Z.eqb_spec 3 (Z.of_nat p + 1)); [lia |].
    destruct (Z.eqb_spec 4 (Z.of_nat p + 1)); [lia |].
    destruct (Z.eqb_spec 5 (Z.of_nat p + 1)); [lia | reflexivity].
Defined.

(** The lines of the example sentence, printed by a BIOES model: the gold
    column is in BIO. *)
Example print_five_tokens :
  snd (_print_predictions 1%Z (span_model "BIOES") [five_token_sentence] "ner")
  = ["Ada B-X O" ++ newline; "visited O O" ++ newline;
     "New B-Y O" ++ newline; "York I-Y O" ++ newline;
     "City I-Y O" ++ newline; newline].
Proof. reflexivity. Qed.

(** ** A training step under BIO *)

Lemma index_of_In (item : string) (xs : list string) :
  In item xs ->
  exists i, index_of item xs = Some i /\ (i < List.length xs)%nat.
Proof.
  induction xs as [| x xs IH]; intros H; [contradiction |]. simpl.
  destruct (String.eqb_spec item x) as [-> | Hne].
  - exists 0. split; [reflexivity | lia].
  - destruct H as [-> | H]; [congruence |].
    destruct (IH H) as [i [Hi Hlt]]. rewrite Hi. exists (S i).
    split; [reflexivity | lia].
Qed.

Lemma Forall2_In_right (A B : Type) (P : A -> B -> Prop) (xs : list A)
    (ys : list B) (y : B) :
  Forall2 P xs ys -> In y ys -> exists x, In x xs /\ P x y.
Proof.
  induction 1 as [| x0 y0 xs ys Hxy _ IH]; intros Hin; [contradiction |].
  destruct Hin as [-> | Hin].
  - exists x0. split; [now left | assumption].
  - destruct (IH Hin) as [x [Hx Hp]]. exists x. split; [now right | assumption].
Qed.

Lemma BIO_tags_in_expanded_items (labels : list string) (v : string) :
  In v labels ->
  In "O" (expanded_items "BIO" labels)
  /\ In ("B-" ++ v) (expanded_items "BIO" labels)
  /\ In ("I-" ++ v) (expanded_items "BIO" labels).
Proof.
  intros Hv. destruct labels as [| l0 labels]; [contradiction |].
  unfold expanded_items. split; [now left |].
  split; right; apply in_flat_map; exists v; (split; [exact Hv |]);
    unfold expanded_tags; simpl; tauto.
Qed.

Lemma encodes_lengths (R : Type) (m : DualEncoder)
    (sentences : list (Sentence R)) (lss : list (list string)) :
  Forall2 (encodes m) sentences lss ->
  List.length (List.concat lss) = list_sum (map Sentence_len sentences).
Proof.
  induction 1 as [| s ls ss lss [L _] _ IH]; [reflexivity |].
  cbn [List.concat map]. rewrite length_app, L, IH. reflexivity.
Qed.

(** A training step under BIO goes through: for a span-level dictionary
    with at least one base label, encoders of one dimension, a batch with
    at least one token and gold spans that lie inside their sentences, do
    not overlap and carry labels of the dictionary, [forward_loss]
    returns the loss of the loss function together with the number of
    tokens of the batch. *)
Theorem forward_loss_BIO_succeeds (R : Type) (fw : Framework R)
    (d : Dictionary) (ty fmt : string) (sentences : list (Sentence R))
    (dim : nat) :
  upper fmt = "BIO" ->
  span_labels d = true -> NoDup (get_items d) -> base_labels d <> [] ->
  (forall s t, List.length (token_encoder fw s t) = dim) ->
  (forall phrase, List.length (label_encoder fw phrase) = dim) ->
  list_sum (map Sentence_len sentences) <> 0 ->
  Forall (fun s =>
            Forall (fun a => span_in_sentence (Sentence_len s) (fst a) = true
                             /\ In (l_value (snd a)) (base_labels d))
              (get_labels s ty)
            /\ ForallOrdPairs (fun a b => disjoint_spans (fst a) (fst b))
                 (get_labels s ty))
    sentences ->
  exists m logits targets,
    DualEncoder_init d ty fmt = Ok m
    /\ forward_logits fw m sentences = Ok logits
    /\ List.length targets = list_sum (map Sentence_len sentences)
    /\ Forall (fun i => (i < tagset_size m)%nat) targets
    /\ forward_loss fw m sentences
       = Ok (loss_fct fw logits targets,
             list_sum (map Sentence_len sentences)).
Proof.
  intros Hfmt Hspan Hnd Hbase Htok Hlab Hne Hall. unfold DualEncoder_init.
  rewrite Hfmt.
  destruct (init_span_level d ty "BIO") as
    [m [Hm [Hitems [Hsize [Hverb [Htf [Hty Hps]]]]]]]; trivial;
    try (now left).
  assert (Hcols : List.length (idx2verbalized_label m) = tagset_size m).
  { rewrite Hverb, Hsize. unfold item2idx_items.
    rewrite verbalize_items_length, Hitems.
    rewrite verbalized_expanded_items, expanded_items_length;
      trivial; now left. }
  assert (Hpos : tagset_size m <> 0).
  { rewrite Hsize, expanded_items_length by assumption. simpl. lia. }
  destruct (forward_logits_shape R fw m sentences dim Htok Hlab Hne)
    as [logits [Hlogits [Hrows Hrow]]].
  { intros E. rewrite E in Hcols. simpl in Hcols. congruence. }
  assert (Hall' : Forall (fun s =>
            Forall (fun a => span_in_sentence (Sentence_len s) (fst a) = true)
              (gold_spans m s)
            /\ ForallOrdPairs (fun a b => disjoint_spans (fst a) (fst b))
                 (gold_spans m s)) sentences).
  { unfold gold_spans. rewrite Hty. eapply Forall_impl; [| exact Hall].
    intros s [Hwf Hdis]. split; [| exact Hdis].
    eapply Forall_impl; [| exact Hwf]. now intros a [Ha _]. }
  destruct (gold_labels_batch_spec R m sentences Hps Hall')
    as [lss [Hgold Henc]].
  set (items := idx2item (label_dictionary m)).
  set (g := fun tag => match index_of tag items with
                       | Some i => i
                       | None => 0
                       end).
  assert (Hknown : forall tag, In tag (List.concat lss) -> In tag items).
  { intros tag Htag. apply in_concat in Htag as [ls [Hls Htag]].
    destruct (Forall2_In_right _ _ _ _ _ ls Henc Hls) as [s [Hs [L [Ein Eout]]]].
    apply In_nth_error in Htag as [p Hp].
    assert (Hlt : (p < Sentence_len s)%nat).
    { rewrite <- L. apply nth_error_Some. congruence. }
    unfold items. rewrite Hitems.
    destruct (base_labels d) as [| l0 labels] eqn:Eb; [congruence |].
    destruct (existsb (fun a => covers (fst a) p) (gold_spans m s)) eqn:E.
    - apply existsb_exists in E as [a [Ha Hcov]].
      rewrite (Ein a p Ha Hcov) in Hp. injection Hp as <-.
      rewrite Htf, span_tag_BIO.
      assert (Hv : In (l_value (snd a)) (l0 :: labels)).
      { rewrite Forall_forall in Hall. destruct (Hall s Hs) as [Hwf _].
        rewrite Forall_forall in Hwf. unfold gold_spans in Ha.
        rewrite Hty in Ha. now destruct (Hwf a Ha). }
      destruct (BIO_tags_in_expanded_items _ _ Hv) as [_ [HB HI]].
      now destruct (Z.of_nat p + 1 =? first_idx (fst a))%Z.
    - assert (Hnone : forall a, In a (gold_spans m s) ->
                                covers (fst a) p = false).
      { intros a Ha. destruct (covers (fst a) p) eqn:Ec; [| reflexivity].
        assert (existsb (fun a => covers (fst a) p) (gold_spans m s) = true)
          by (apply existsb_exists; now exists a).
        congruence. }
      rewrite (Eout p Hlt Hnone) in Hp. injection Hp as <-. now left. }
  assert (Htargets : map_r (get_idx_for_item (label_dictionary m))
                       (List.concat lss) = Ok (map g (List.concat lss))).
  { apply map_r_ok. intros tag Htag. unfold get_idx_for_item, g.
    destruct (index_of_In tag items (Hknown tag Htag)) as [i [Hi _]].
    fold items. now rewrite Hi. }
  assert (Hbound : Forall (fun i => (i < tagset_size m)%nat)
                     (map g (List.concat lss))).
  { apply Forall_forall. intros i Hi. apply in_map_iff in Hi as [tag [<- Htag]].
    destruct (index_of_In tag items (Hknown tag Htag)) as [i [Hi Hlt]].
    unfold g. rewrite Hi. rewrite Hsize, <- Hitems. exact Hlt. }
  assert (Hlen : List.length (map g (List.concat lss))
                 = list_sum (map Sentence_len sentences)).
  { rewrite length_map. now apply (encodes_lengths R m). }
  exists m, logits, (map g (List.concat lss)).
  split; [exact Hm |]. split; [exact Hlogits |]. split; [exact Hlen |].
  split; [exact Hbound |].
  unfold forward_loss. destruct sentences as [| s0 ss] eqn:Es;
    [simpl in Hne; congruence |].
  rewrite <- Es in *. assert (Hl : (List.length sentences =? 0)%nat = false)
    by (rewrite Es; reflexivity).
  rewrite Hl. unfold forward. rewrite Hlogits. cbn [bind].
  rewrite Hgold. cbn [bind]. rewrite Htargets. cbn [bind].
  unfold cross_entropy. rewrite Hrows, Hlen, Nat.eqb_refl. cbn [negb].
  assert (Hhd : List.length (hd [] logits) = tagset_size m).
  { destruct logits as [| row rows]; [simpl in Hrows; congruence |].
    inversion Hrow; subst. simpl. congruence. }
  rewrite Hhd.
  assert (Hall2 : forallb (fun t => (t <? tagset_size m)%nat)
                    (map g (List.concat lss)) = true).
  { apply forallb_forall. intros i Hi. apply Nat.ltb_lt.
    rewrite Forall_forall in Hbound. now apply Hbound. }
  rewrite Hall2. reflexivity.
Qed.

Lemma forward_loss_BIO_succeeds_witness :
  exists m logits targets,
    DualEncoder_init (mkDictionary ["<unk>"; "X"; "Y"] true true) "ner" "bio"
    = Ok m
    /\ forward_logits constant_framework m [five_token_sentence] = Ok logits
    /\ List.length targets
       = list_sum (map Sentence_len [five_token_sentence])
    /\ Forall (fun i => (i < tagset_size m)%nat) targets
    /\ forward_loss constant_framework m [five_token_sentence]
       = Ok (loss_fct constant_framework logits targets,
             list_sum (map Sentence_len [five_token_sentence])).
Proof.
  apply (forward_loss_BIO_succeeds Z constant_framework
           (mkDictionary ["<unk>"; "X"; "Y"] true true) "ner" "bio"
           [five_token_sentence] 2).
  - reflexivity.
  - reflexivity.
  - unfold get_items; simpl.
    repeat constructor; simpl; intuition discriminate.
  - vm_compute. discriminate.
  - intros s t. reflexivity.
  - intros phrase. reflexivity.
  - vm_compute. discriminate.
  - constructor; [| constructor]. split.
    + repeat constructor; simpl; tauto.
    + repeat constructor. intros p. unfold covers.
      cbn -[Z.eqb Z.add Z.of_nat].
      destruct (Z.eqb_spec 1 (Z.of_nat p + 1)); [| discriminate].
      intros _.
      destruct (Z.eqb_spec 3 (Z.of_nat p + 1)); [lia |].
      destruct (Z.eqb_spec 4 (Z.of_nat p + 1)); [lia |].
      destruct (Z.eqb_spec 5 (Z.of_nat p + 1)); [lia | reflexivity].
Defined.

Example forward_loss_five_tokens :
  exists m,
    DualEncoder_init (mkDictionary ["<unk>"; "X"; "Y"] true true) "ner" "bio"
    = Ok m
    /\ idx2item (label_dictionary m) = ["O"; "B-X"; "I-X"; "B-Y"; "I-Y"]
    /\ forward_loss constant_framework m [five_token_sentence] = Ok (0%Z, 5).
Proof. eexists. repeat split; reflexivity. Qed.

(** ** Predictions read back as labels *)

Lemma removed_label_value (R : Type) (ty z : string) (t : Token R) :
  get_label_value (Token_remove_labels ty t) ty z = z.
Proof.
  unfold get_label_value, Token_remove_labels. cbn [t_labels].
  now rewrite filter_other_type.
Qed.

Lemma added_label_value (R : Type) (ty tag z : string) (score : R)
    (t : Token R) :
  get_label_value (Token_add_label (Token_remove_labels ty t) ty tag score)
    ty z = tag.
Proof.
  unfold get_label_value, Token_add_label, Token_remove_labels.
  cbn [t_labels]. rewrite filter_app, filter_other_type. simpl.
  now rewrite String.eqb_refl.
Qed.

Lemma label_tokens_read_back (R : Type) (ty : string) :
  forall (toks : list (Token R)) (preds : list (string * R)),
  List.length preds = List.length toks ->
  map (fun t => get_label_value t ty "O")
    (label_tokens ty (map (Token_remove_labels ty) toks) preds)
  = map (fun p => if String.eqb (fst p) "_" then "O" else fst p) preds.
Proof.
  induction toks as [| t toks IH]; intros preds Hlen.
  - destruct preds; [reflexivity | discriminate].
  - destruct preds as [| [tag score] preds]; [discriminate |].
    cbn [map label_tokens fst snd]. rewrite IH by (simpl in Hlen; lia).
    f_equal. unfold mem. cbn [existsb].
    destruct (String.eqb_spec tag "O") as [-> | HO]; cbn [orb].
    + apply removed_label_value.
    + destruct (String.eqb tag "_"); cbn [orb].
      * apply removed_label_value.
      * apply added_label_value.
Qed.

(** Token-level predictions can be read back: after the labels of the
    type have been removed from a sentence, as [predict] does, and one
    prediction per token has been attached, the token-level labels of
    that type are the predicted tags, with "O" where the tag was "_". *)
Theorem predictions_read_back (R : Type) (fw : Framework R)
    (m m' : DualEncoder) (label_name : string) (force : bool)
    (s : Sentence R) (preds : list (string * R)) :
  predict_spans m = false \/ force = true ->
  predict_spans m' = false -> tag_type m' = label_name ->
  List.length preds = Sentence_len s ->
  exists s',
    add_predictions fw m label_name force (remove_labels label_name s) preds
    = Ok s'
    /\ _get_gold_labels m' [s']
       = Ok [map (fun p => if String.eqb (fst p) "_" then "O" else fst p)
               preds].
Proof.
  intros Hmode Hm' Hty Hlen. unfold add_predictions.
  assert (Hcond : predict_spans m && negb force = false)
    by (destruct Hmode as [-> | ->]; [reflexivity | apply andb_false_r]).
  rewrite Hcond. eexists. split; [reflexivity |].
  unfold _get_gold_labels. rewrite Hm', Hty. cbn [map tokens remove_labels].
  now rewrite label_tokens_read_back.
Qed.

Lemma predictions_read_back_witness :
  exists s',
    add_predictions constant_framework token_model "ner" false
      (remove_labels "ner" five_token_sentence)
      [("B-person", 9%Z); ("O", 8%Z); ("_", 7%Z); ("I-person", 6%Z);
       ("O", 5%Z)] = Ok s'
    /\ _get_gold_labels token_model [s']
       = Ok [map (fun p : string * Z =>
                    if String.eqb (fst p) "_" then "O" else fst p)
               [("B-person", 9%Z); ("O", 8%Z); ("_", 7%Z); ("I-person", 6%Z);
                ("O", 5%Z)]].
Proof.
  apply (predictions_read_back Z constant_framework token_model token_model
           "ner" false five_token_sentence
           [("B-person", 9%Z); ("O", 8%Z); ("_", 7%Z); ("I-person", 6%Z);
            ("O", 5%Z)]).
  - left. reflexivity.
  - reflexivity.
  - reflexivity.
  - reflexivity.
Defined.
